(** * Verification of three mattermost-webapp components

    - [CloudSubscribe]: the subscription modal with simulated progress
      (components/cloud_subscribe_with_loading_modal/index.tsx);
    - [PricingPost]: the custom post renderer for pricing and upgrade
      prompts (OpenPricingModalPost);
    - [Skeleton]: the rectangle skeleton loader
      (packages/components/src/skeleton_loader/index.tsx).

    Each component is embedded as executable functions over explicit state;
    React hooks, timers and the promise returned by the store's dispatch
    are made explicit as state fields and events. *)

From Stdlib Require Import ZArith String Ascii List Bool Lia DecimalString.
From stdpp Require Import gmap strings list.
Import ListNotations.

Local Open Scope string_scope.
Local Open Scope list_scope.

(** ** JavaScript values, as far as [typeof] distinguishes them *)

Inductive JSValue : Type :=
| JUndefined
| JNull
| JBoolean (b : bool)
| JNumber (n : Z)
| JString (s : string)
| JObject (fields : list (string * string)).

Inductive JSType : Type :=
| TUndefined | TObject | TBoolean | TNumber | TString.

Definition typeof (v : JSValue) : JSType :=
  match v with
  | JUndefined => TUndefined
  | JNull => TObject
  | JBoolean _ => TBoolean
  | JNumber _ => TNumber
  | JString _ => TString
  | JObject _ => TObject
  end.

Definition is_boolean (v : JSValue) : bool :=
  match typeof v with TBoolean => true | _ => false end.

(** ** The subscription modal *)

Module CloudSubscribe.

Inductive ProcessState : Type := PROCESSING | SUCCESS | FAILED.

Definition MIN_PROCESSING_MILLISECONDS : Z := 8000.
Definition MAX_FAKE_PROGRESS : Z := 95.

(** [props]: the team to keep and the selected product, by id. *)
Record Props : Type := mkProps {
  teamToKeep : option string;
  selectedProduct : option string
}.

(** Store actions the component dispatches, and the two callbacks of its
    props, in the order they are issued. *)
Inductive Action : Type :=
| SelectTeam (team : string)
| ArchiveAllTeamsExcept (team : string)
| SubscribeCloudSubscription (product : option string)
| CloseModal
| OnBack
| OnClose.

(** Handlers of the component, for the call log. *)
Inductive Call : Type :=
| CallHandleSubscribe
| CallCompleteSubscribe
| CallUpdateProgress
| CallHandleGoBack
| CallHandleClose.

Definition TimerId : Type := nat.

(** A pending [setTimeout(completeSubscribe, delay)]: when it was set and
    the delay it was given, both in milliseconds. *)
Record Timeout : Type := mkTimeout { setAt : Z; delay : Z }.

(** The component instance: [progress] is [progress.current] (a ref),
    [error] and [processingState] are the two [useState] cells,
    [interval] is the browser's entry for the [setInterval] of the mount
    effect while it runs, [completion] the pending completion timeout.
    [issued] and [calls] log the dispatched actions and the handlers that
    ran, oldest first. *)
Record Model : Type := mkModel {
  progress : Z;
  error : bool;
  processingState : ProcessState;
  interval : option TimerId;
  completion : option Timeout;
  issued : list Action;
  calls : list Call
}.

Definition set_progress (p : Z) (m : Model) : Model :=
  mkModel p (error m) (processingState m) (interval m) (completion m)
          (issued m) (calls m).

Definition setError (e : bool) (m : Model) : Model :=
  mkModel (progress m) e (processingState m) (interval m) (completion m)
          (issued m) (calls m).

Definition setProcessingState (s : ProcessState) (m : Model) : Model :=
  mkModel (progress m) (error m) s (interval m) (completion m)
          (issued m) (calls m).

Definition set_interval (i : option TimerId) (m : Model) : Model :=
  mkModel (progress m) (error m) (processingState m) i (completion m)
          (issued m) (calls m).

Definition set_completion (c : option Timeout) (m : Model) : Model :=
  mkModel (progress m) (error m) (processingState m) (interval m) c
          (issued m) (calls m).

Definition dispatch (a : Action) (m : Model) : Model :=
  mkModel (progress m) (error m) (processingState m) (interval m)
          (completion m) (issued m ++ [a]) (calls m).

Definition enter (c : Call) (m : Model) : Model :=
  mkModel (progress m) (error m) (processingState m) (interval m)
          (completion m) (issued m) (calls m ++ [c]).

(** [clearInterval(intervalId)]: [intervalId] is the variable of the
    closure that calls it, [None] when it is [undefined]; clearing a handle
    that names no running timer does nothing. *)
Definition clearInterval (intervalId : option TimerId) (m : Model) : Model :=
  match intervalId, interval m with
  | Some i, Some j => if Nat.eqb i j then set_interval None m else m
  | _, _ => m
  end.

(** [setTimeout(completeSubscribe, d)] at clock reading [now]. *)
Definition setTimeout (now d : Z) (m : Model) : Model :=
  set_completion (Some (mkTimeout now d)) m.

Definition completeSubscribe (intervalId : option TimerId) (m : Model) : Model :=
  let m := enter CallCompleteSubscribe m in
  let m := clearInterval intervalId m in
  let m := setProcessingState SUCCESS m in
  set_progress 100 m.

Definition updateProgress (intervalId : option TimerId) (m : Model) : Model :=
  let m := enter CallUpdateProgress m in
  if (MAX_FAKE_PROGRESS <=? progress m)%Z then clearInterval intervalId m
  else
    set_progress
      (if (MAX_FAKE_PROGRESS <? progress m + 3)%Z then MAX_FAKE_PROGRESS
       else (progress m + 3)%Z) m.

Definition handleGoBack (intervalId : option TimerId) (m : Model) : Model :=
  let m := enter CallHandleGoBack m in
  let m := clearInterval intervalId m in
  let m := set_progress 0 m in
  let m := setError false m in
  let m := setProcessingState PROCESSING m in
  dispatch OnBack m.

Definition handleClose (m : Model) : Model :=
  let m := enter CallHandleClose m in
  let m := dispatch CloseModal m in
  dispatch OnClose m.

(** [handleSubscribe] is an async function. It is split at its two
    [await]s: the part run by the call itself, the part run when the team
    archival resolves, and the part run when the subscription request
    resolves with [productUpdated] at clock reading [now] (the value of
    [end]). [start] is the clock reading taken on entry. *)
Inductive Await : Type :=
| AwaitArchive (start : Z)
| AwaitSubscribe (start : Z).

Definition handleSubscribe_request (p : Props) (m : Model) : Model :=
  dispatch (SubscribeCloudSubscription (selectedProduct p)) m.

Definition handleSubscribe (p : Props) (now : Z) (m : Model) : Model * Await :=
  let m := enter CallHandleSubscribe m in
  let start := now in
  match teamToKeep p with
  | Some team => (dispatch (ArchiveAllTeamsExcept team) m, AwaitArchive start)
  | None => (handleSubscribe_request p m, AwaitSubscribe start)
  end.

Definition handleSubscribe_archived (p : Props) (start : Z) (m : Model)
  : Model * Await :=
  (handleSubscribe_request p m, AwaitSubscribe start).

Definition handleSubscribe_resolved (intervalId : option TimerId)
    (start now : Z) (productUpdated : JSValue) (m : Model) : Model :=
  if negb (is_boolean productUpdated) then
    let m := setError true m in
    setProcessingState FAILED m
  else
    let end_ := now in
    let millisecondsElapsed := (end_ - start)%Z in
    if (millisecondsElapsed <? MIN_PROCESSING_MILLISECONDS)%Z then
      setTimeout now (MIN_PROCESSING_MILLISECONDS - millisecondsElapsed) m
    else completeSubscribe intervalId m.

(** The component instance together with the event loop's view of it: the
    clock, and where [handleSubscribe] is suspended, if it is. *)
Record World : Type := mkWorld {
  model : Model;
  now : Z;
  pending : option Await
}.

Definition initialModel : Model :=
  mkModel 0 false PROCESSING None None [] [].

(** The handle [setInterval] returns in the mount effect. The effect and the
    handlers it reaches ([handleSubscribe], [completeSubscribe],
    [updateProgress]) are closures of the first render and share its
    [intervalId]. *)
Definition mountIntervalId : option TimerId := Some 1.

(** [let intervalId] is declared afresh by every render and assigned only by
    the mount effect, so in the closures of any later render it is
    [undefined]. The failure page, whose button calls [handleGoBack], is
    never the first render: the initial state is [PROCESSING]. *)
Definition renderIntervalId : option TimerId := None.

(** The mount effect ([useEffect] with no dependencies), at clock reading
    [t0]. *)
Definition mount (p : Props) (t0 : Z) : World :=
  let m := initialModel in
  let m := match teamToKeep p with
           | Some team => dispatch (SelectTeam team) m
           | None => m
           end in
  let '(m, a) := handleSubscribe p t0 m in
  let m := set_interval mountIntervalId m in
  mkWorld m t0 (Some a).

(** What can happen to a mounted component. *)
Inductive Happening : Type :=
| Tick
| Archived
| Resolved (productUpdated : JSValue)
| TimeoutFires
| GoBack
| Close.

Record Event : Type := mkEvent { at_ : Z; what : Happening }.

(** One turn of the event loop. [None]: the event cannot happen in this
    world (an interval tick after [clearInterval], a click on a button that
    is not rendered, a timeout before its delay has passed, a clock that
    runs backwards). *)
Definition step (p : Props) (w : World) (e : Event) : option World :=
  if (at_ e <? now w)%Z then None
  else
    let m := model w in
    let t := at_ e in
    match what e with
    | Tick =>
        match interval m with
        | Some _ => Some (mkWorld (updateProgress mountIntervalId m) t (pending w))
        | None => None
        end
    | Archived =>
        match pending w with
        | Some (AwaitArchive start) =>
            let '(m, a) := handleSubscribe_archived p start m in
            Some (mkWorld m t (Some a))
        | _ => None
        end
    | Resolved v =>
        match pending w with
        | Some (AwaitSubscribe start) =>
            Some (mkWorld (handleSubscribe_resolved mountIntervalId start t v m)
                          t None)
        | _ => None
        end
    | TimeoutFires =>
        match completion m with
        | Some tm =>
            if (setAt tm + delay tm <=? t)%Z then
              Some (mkWorld (completeSubscribe mountIntervalId
                               (set_completion None m)) t (pending w))
            else None
        | None => None
        end
    | GoBack =>
        match processingState m with
        | FAILED => Some (mkWorld (handleGoBack renderIntervalId m) t (pending w))
        | _ => None
        end
    | Close => Some (mkWorld (handleClose m) t (pending w))
    end.

Fixpoint run (p : Props) (w : World) (evs : list Event) : option World :=
  match evs with
  | [] => Some w
  | e :: evs =>
      match step p w e with
      | Some w' => run p w' evs
      | None => None
      end
  end.

Definition is_go_back (e : Event) : bool :=
  match what e with GoBack => true | _ => false end.

Definition no_go_back (evs : list Event) : bool :=
  forallb (fun e => negb (is_go_back e)) evs.

Definition is_complete (c : Call) : bool :=
  match c with CallCompleteSubscribe => true | _ => false end.

(** [completeSubscribe] has run. *)
Definition completed (m : Model) : bool := existsb is_complete (calls m).

Definition start_of (a : Await) : Z :=
  match a with AwaitArchive start | AwaitSubscribe start => start end.

(** What holds of every world a component mounted at [t0] can reach. *)
Record Inv (t0 : Z) (w : World) : Prop := mkInv {
  inv_clock : (t0 <= now w)%Z;
  inv_pending : forall a, pending w = Some a ->
    start_of a = t0 /\ completion (model w) = None /\
    completed (model w) = false /\ error (model w) = false /\
    processingState (model w) = PROCESSING;
  inv_timeout : forall tm, completion (model w) = Some tm ->
    (setAt tm + delay tm = t0 + MIN_PROCESSING_MILLISECONDS)%Z /\
    completed (model w) = false;
  inv_before : completed (model w) = false ->
    (0 <= progress (model w) <= MAX_FAKE_PROGRESS)%Z /\
    processingState (model w) <> SUCCESS;
  inv_after : completed (model w) = true ->
    progress (model w) = 100%Z /\ processingState (model w) = SUCCESS /\
    completion (model w) = None /\ pending w = None /\
    (t0 + MIN_PROCESSING_MILLISECONDS <= now w)%Z
}.

(** After the request has resolved with something that is not a boolean. *)
Definition FailedPath (w : World) : Prop :=
  pending w = None /\ completion (model w) = None /\
  completed (model w) = false.

(** After the request has resolved with a boolean. *)
Definition SuccessPath (t0 : Z) (w : World) : Prop :=
  pending w = None /\ error (model w) = false /\
  ((processingState (model w) = SUCCESS /\ progress (model w) = 100%Z) \/
   (processingState (model w) = PROCESSING /\
    exists tm, completion (model w) = Some tm /\
      (setAt tm + delay tm = t0 + MIN_PROCESSING_MILLISECONDS)%Z)).

(** *** What the component renders *)

Inductive Icon : Type :=
| CreditCardSvg | PaymentSuccessStandardSvg | PaymentFailedSvg.

(** The click handlers the pages pass on. The tertiary button of the
    success page calls [handleClose] and then opens the billing page. *)
Inductive Handler : Type :=
| HandleClose
| HandleGoBack
| HandleCloseThenBilling.

(** The props given to [IconMessage]; a prop that is not passed is [None].
    Titles, subtitles and button texts are message ids, the plain and the
    formatted variant of a text sharing a field. *)
Record IconMessage : Type := mkIconMessage {
  className : string;
  title : string;
  subtitle : string;
  icon : Icon;
  error_prop : option bool;
  buttonText : option string;
  buttonHandler : option Handler;
  tertiaryBtnText : option string;
  tertiaryButtonHandler : option Handler;
  linkText : option string;
  linkURL : option string;
  footer : option string
}.

(** The [width] of the fill of the progress bar. *)
Definition progressBar (m : Model) : string :=
  NilZero.string_of_int (Z.to_int (progress m)) +:+ "%".

Definition sucessPage (m : Model) : IconMessage :=
  mkIconMessage "success"
    "admin.billing.subscription.downgradedSuccess"
    "success_modal.subtitle"
    PaymentSuccessStandardSvg
    (Some (error m))
    (Some "admin.billing.subscription.returnToTeam")
    (Some HandleClose)
    (Some "admin.billing.subscription.viewBilling")
    (Some HandleCloseThenBilling)
    None
    None
    None.

Definition modalContent (m : Model) : IconMessage :=
  match processingState m with
  | PROCESSING =>
      mkIconMessage "processing"
        "admin.billing.subscription.downgrading"
        ""
        CreditCardSvg
        None None None None None None None
        (Some (progressBar m))
  | SUCCESS => sucessPage m
  | FAILED =>
      mkIconMessage "failed"
        "admin.billing.subscription.paymentVerificationFailed"
        "admin.billing.subscription.paymentFailed"
        PaymentFailedSvg
        (Some (error m))
        (Some "admin.billing.subscription.goBackTryAgain")
        (Some HandleGoBack)
        None
        None
        (Some "admin.billing.subscription.constCloudCard.contactSupport")
        (Some "")
        None
  end.

(** *** Counting what was issued and called *)

Definition is_subscribe (a : Action) : bool :=
  match a with SubscribeCloudSubscription _ => true | _ => false end.

(** The subscription requests among the issued actions. *)
Definition requests_issued (m : Model) : list Action :=
  List.filter is_subscribe (issued m).

(** How often [completeSubscribe] has run. *)
Definition completions (m : Model) : nat :=
  length (List.filter is_complete (calls m)).

Definition is_close (e : Event) : bool :=
  match what e with Close => true | _ => false end.

(** A run with the closings of the modal left out. *)
Definition without_close (evs : list Event) : list Event :=
  List.filter (fun e => negb (is_close e)) evs.

(** A world without its logs and its clock: what decides the rendering and
    what can happen next. *)
Definition observe (w : World)
  : Z * bool * ProcessState * option TimerId * option Timeout * option Await :=
  (progress (model w), error (model w), processingState (model w),
   interval (model w), completion (model w), pending w).

(** [n] ticks of the interval in a row. *)
Definition ticks (n : nat) (m : Model) : Model :=
  Nat.iter n (updateProgress mountIntervalId) m.


(** The component instance without its logs. *)
Definition visible (m : Model)
  : Z * bool * ProcessState * option TimerId * option Timeout :=
  (progress m, error m, processingState m, interval m, completion m).


(** *** The states React can render during a turn *)

(** A [useState] setter called from a timer callback or from the
    continuation of an [await] re-renders the component at once when
    updates are not batched, so the states between the setter calls of
    one handler can be rendered too. For each handler: the state after
    each setter call, then the state when it returns. Assignments to the
    ref [progress.current] render nothing. *)
Definition completeSubscribe_frames (intervalId : option TimerId) (m : Model)
  : list Model :=
  let m := enter CallCompleteSubscribe m in
  let m := clearInterval intervalId m in
  let m := setProcessingState SUCCESS m in
  [m; set_progress 100 m].

Definition handleGoBack_frames (intervalId : option TimerId) (m : Model)
  : list Model :=
  let m := enter CallHandleGoBack m in
  let m := clearInterval intervalId m in
  let m := set_progress 0 m in
  let m1 := setError false m in
  let m2 := setProcessingState PROCESSING m1 in
  [m1; m2; dispatch OnBack m2].

Definition handleSubscribe_resolved_frames (intervalId : option TimerId)
    (start now : Z) (productUpdated : JSValue) (m : Model) : list Model :=
  if negb (is_boolean productUpdated) then
    let m1 := setError true m in
    [m1; setProcessingState FAILED m1]
  else
    let millisecondsElapsed := (now - start)%Z in
    if (millisecondsElapsed <? MIN_PROCESSING_MILLISECONDS)%Z then
      [setTimeout now (MIN_PROCESSING_MILLISECONDS - millisecondsElapsed) m]
    else completeSubscribe_frames intervalId m.

(** The states the turn for event [e] goes through in world [w], the last
    one being the state [step] ends in. *)
Definition frames (p : Props) (w : World) (e : Event) : list Model :=
  let m := model w in
  match what e with
  | Tick => [updateProgress mountIntervalId m]
  | Archived => [handleSubscribe_request p m]
  | Resolved v =>
      match pending w with
      | Some a =>
          handleSubscribe_resolved_frames mountIntervalId (start_of a)
            (at_ e) v m
      | None => []
      end
  | TimeoutFires =>
      completeSubscribe_frames mountIntervalId (set_completion None m)
  | GoBack => handleGoBack_frames renderIntervalId m
  | Close => [handleClose m]
  end.

End CloudSubscribe.

(** ** The pricing post renderer *)

Module PricingPost.

(** The four feature names [mapFeatureToPlan] switches on. They are
    constants of [utils/constants] ([NonAdminPaidFeatures]), which the
    renderer imports; the renderer is verified for every value of them. *)
Class NonAdminPaidFeatures : Type := {
  GUEST_ACCOUNTS : string;
  CREATE_MULTIPLE_TEAMS : string;
  ALL_ENTERPRISE_FEATURES : string;
  CUSTOM_USER_GROUPS : string
}.

Module MinimumPlansForFeature.
Definition Professional : string := "Professional plan".
Definition Enterprise : string := "Enterprise plan".
End MinimumPlansForFeature.

Record FeatureRequest : Type := mkFeatureRequest {
  id : string;
  user_id : string;
  required_feature : string;
  required_plan : string;
  create_at : string;
  trial : string
}.

(** [Record<string, FeatureRequest[]>]: the object's entries in the order
    [Object.keys] lists them, each key once. *)
Definition RequestedFeature : Type := list (string * list FeatureRequest).

(** [Partial<CustomPostProps>]: either property may be absent. *)
Record CustomPostProps : Type := mkCustomPostProps {
  requested_features : option RequestedFeature;
  props_trial : option bool
}.

Record Post : Type := mkPost {
  post_id : string;
  message : string;
  props : CustomPostProps
}.

(** A user profile of the store, as far as the renderer reads it. *)
Record UserProfile : Type := mkUserProfile { username : string }.

(** *** String helpers standing for the JavaScript built-ins used *)

(** [String(n)] for an array length. *)
Definition string_of_nat (n : nat) : string :=
  NilEmpty.string_of_uint (Nat.to_uint n).

(** [s.replaceAll(' ', '-')]. *)
Fixpoint replaceAll_space_dash (s : string) : string :=
  match s with
  | EmptyString => EmptyString
  | String c r =>
      String (if Ascii.eqb c " " then "-"%char else c) (replaceAll_space_dash r)
  end.

(** [l.join(sep)]. *)
Fixpoint join (sep : string) (l : list string) : string :=
  match l with
  | [] => ""
  | [x] => x
  | x :: r => x +:+ sep +:+ join sep r
  end.

Fixpoint has_comma (s : string) : bool :=
  match s with
  | EmptyString => false
  | String c r => Ascii.eqb c "," || has_comma r
  end.

(** [s.replace(re, '$1')] where [re] is: a comma, then a captured group of
    any number of characters other than commas, then the end of the string.
    The match is tried at each position from the left; it succeeds at a
    comma followed only by characters other than commas up to the end, and
    that comma is dropped. *)
Fixpoint replace_last_comma (s : string) : string :=
  match s with
  | EmptyString => EmptyString
  | String c r =>
      if Ascii.eqb c "," && negb (has_comma r) then r
      else String c (replace_last_comma r)
  end.

(** [s + v] for a value [v] that is a string or [undefined]: ['and ' +
    lastUser], where [lastUser] is [undefined] when the array was empty, and
    ['@' + profile?.username]. *)
Definition concat_maybe (s : string) (v : option string) : string :=
  s +:+ match v with Some x => x | None => "undefined" end.

Fixpoint has_space (s : string) : bool :=
  match s with
  | EmptyString => false
  | String c r => Ascii.eqb c " " || has_space r
  end.


(** *** Reading a property of the profile directory *)

(** The directory is a plain object: besides its own entries, profiles by
    user id, it inherits the properties of [Object.prototype]. These are
    their names; the values are functions, and for [__proto__] the
    prototype itself. *)
Definition ObjectPrototype : list string :=
  [ "constructor"; "hasOwnProperty"; "isPrototypeOf"; "propertyIsEnumerable";
    "toLocaleString"; "toString"; "valueOf"; "__proto__";
    "__defineGetter__"; "__defineSetter__"; "__lookupGetter__";
    "__lookupSetter__" ].

Definition inherited (key : string) : bool :=
  existsb (String.eqb key) ObjectPrototype.

(** What [userProfiles[userId]] evaluates to. *)
Inductive Property : Type :=
| Undefined
| OwnProfile (profile : UserProfile)
| Inherited (name : string).

(** [o[key]]: an own entry first, then the prototype, else [undefined]. *)
Definition get (o : gmap string UserProfile) (key : string) : Property :=
  match o !! key with
  | Some profile => OwnProfile profile
  | None => if inherited key then Inherited key else Undefined
  end.

(** [profile?.username]: no inherited value has a [username]. *)
Definition username_of (profile : Property) : option string :=
  match profile with
  | OwnProfile profile => Some (username profile)
  | Inherited _ | Undefined => None
  end.

(** *** The renderer *)

Section Renderer.

Context {F : NonAdminPaidFeatures}.

(** [userProfiles], the result of the [getUsers] selector: the own entries
    of the store's object, from user id to profile. It is read with [get]. *)
Variable userProfiles : gmap string UserProfile.

Definition getUserIdsForUsersThatRequestedFeature
    (requests : list FeatureRequest) : list string :=
  fold_left (fun userIds request => userIds ++ [user_id request]) requests [].

(** [formatMessage] is rendered with the default messages. *)
Definition getUserNamesForUsersThatRequestedFeature
    (requests : list FeatureRequest) : list string :=
  fold_left
    (fun userNames userId =>
       let profile := get userProfiles userId in
       match profile with
       | Undefined => userNames ++ ["@unknown"]
       | _ => userNames ++ [concat_maybe "@" (username_of profile)]
       end)
    (getUserIdsForUsersThatRequestedFeature requests) [].

(** The label the renderer shows for one requester. *)
Definition userLabel (request : FeatureRequest) : string :=
  let profile := get userProfiles (user_id request) in
  match profile with
  | Undefined => "@unknown"
  | _ => concat_maybe "@" (username_of profile)
  end.

Definition renderUsersThatRequestedFeature
    (requests : list FeatureRequest) : string :=
  if (5 <=? length requests)%nat then
    string_of_nat (length requests) +:+ " members"
  else
    let users := getUserNamesForUsersThatRequestedFeature requests in
    if (length users =? 1)%nat then
      match users !! 0 with Some u => u | None => "undefined" end
    else
      let lastUser := last users in
      let users := removelast users in
      let users := users ++ [concat_maybe "and " lastUser] in
      replace_last_comma (join ", " users).

(** [mapFeatureToPlan], with the variable [allProfessional] it assigns
    passed in and returned. The [switch] takes the first matching case. *)
Definition mapFeatureToPlan (feature : string) (allProfessional : bool)
  : string * bool :=
  if String.eqb feature GUEST_ACCOUNTS
     || String.eqb feature CREATE_MULTIPLE_TEAMS then
    (MinimumPlansForFeature.Professional, allProfessional)
  else if String.eqb feature ALL_ENTERPRISE_FEATURES
          || String.eqb feature CUSTOM_USER_GROUPS then
    (MinimumPlansForFeature.Enterprise, false)
  else (MinimumPlansForFeature.Professional, allProfessional).

(** One element of [customMessageBody]. *)
Record FeatureMessage : Type := mkFeatureMessage {
  title_id : string;
  title_name : string;
  title_message : string;
  subtitle_id : string;
  subtitle_message : string;
  subtitle_userIds : list string
}.

Definition featureMessage (featureName : string)
    (requests : list FeatureRequest) (allProfessional : bool)
  : FeatureMessage * bool :=
  let '(plan, allProfessional) := mapFeatureToPlan featureName allProfessional in
  (mkFeatureMessage
     (replaceAll_space_dash (featureName +:+ "-title"))
     featureName
     (" - available on the " +:+ plan)
     (replaceAll_space_dash (featureName +:+ "-subtitle"))
     (renderUsersThatRequestedFeature requests
        +:+ " requested access to this feature")
     (getUserIdsForUsersThatRequestedFeature requests),
   allProfessional).

(** The loop over [Object.keys(requestFeatures)]; for each key it reads
    [requestFeatures[featureName]], the entry's value. *)
Definition renderFeatures (requestFeatures : RequestedFeature)
  : list FeatureMessage * bool :=
  fold_left
    (fun '(customMessageBody, allProfessional) '(featureName, requests) =>
       let '(msg, allProfessional) :=
         featureMessage featureName requests allProfessional in
       (customMessageBody ++ [msg], allProfessional))
    requestFeatures ([], true).

Inductive Click : Type :=
| OpenLearnMoreTrialModal
| OpenPricingModal (trackingLocation : string)
| OpenPurchaseModal (trackingLocation : string).

Inductive ButtonStyle : Type := Filled | Tinted | Outlined.

Record Button : Type := mkButton {
  button_id : option string;
  onClick : Click;
  button_style : ButtonStyle;
  label : string
}.

Definition trialButtons : list Button :=
  [ mkButton (Some "learn_more_about_trial") OpenLearnMoreTrialModal Filled
      "Learn more about trial";
    mkButton None
      (OpenPricingModal "notify_admin_message_view_upgrade_options") Tinted
      "View upgrade options" ].

Definition professionalButtons : list Button :=
  [ mkButton (Some "upgrade_to_professional")
      (OpenPurchaseModal "notify_admin_message_view") Filled
      "Upgrade to Professional";
    mkButton (Some "view_upgrade_options")
      (OpenPricingModal "notify_admin_message_view_upgrade_options") Tinted
      "View upgrade options" ].

Definition enterpriseButtons : list Button :=
  [ mkButton (Some "view_upgrade_options")
      (OpenPricingModal "notify_admin_message_view_upgrade_options") Outlined
      "View upgrade options" ].

(** A property that may be absent, tested for truthiness. *)
Definition truthy (b : option bool) : bool :=
  match b with Some true => true | _ => false end.

Definition renderButtons (wasTrialRequest : option bool)
    (allProfessional : bool) : list Button :=
  if truthy wasTrialRequest then trialButtons
  else if allProfessional then professionalButtons
  else enterpriseButtons.

Record View : Type := mkView {
  view_message : string;
  customMessageBody : list FeatureMessage;
  buttons : list Button
}.

Definition OpenPricingModalPost (post : Post) : View :=
  let postProps := props post in
  let requestFeatures := requested_features postProps in
  let wasTrialRequest := props_trial postProps in
  let '(body, allProfessional) :=
    match requestFeatures with
    | Some requestFeatures => renderFeatures requestFeatures
    | None => ([], true)
    end in
  mkView (message post) body (renderButtons wasTrialRequest allProfessional).

(** The feature names of a post, and whether [mapFeatureToPlan] sends a
    name to the Enterprise plan. *)
Definition featureNames (post : Post) : list string :=
  match requested_features (props post) with
  | Some requestFeatures => map fst requestFeatures
  | None => []
  end.

Definition needsEnterprise (feature : string) : bool :=
  String.eqb (fst (mapFeatureToPlan feature true))
             MinimumPlansForFeature.Enterprise.

Definition inLookupTable (feature : string) : Prop :=
  feature = GUEST_ACCOUNTS \/ feature = CREATE_MULTIPLE_TEAMS \/
  feature = ALL_ENTERPRISE_FEATURES \/ feature = CUSTOM_USER_GROUPS.

End Renderer.

(** The values the four names have in the web application. *)
Definition webappFeatures : NonAdminPaidFeatures :=
  {| GUEST_ACCOUNTS := "Guest Accounts";
     CREATE_MULTIPLE_TEAMS := "Create Multiple Teams";
     ALL_ENTERPRISE_FEATURES := "All Enterprise features";
     CUSTOM_USER_GROUPS := "Custom User groups" |}.

End PricingPost.

(** ** The rectangle skeleton loader *)

Module Skeleton.

Section Loader.

(** JavaScript numbers and their conversion to a string in a template
    literal; [number_of_Z] gives the literals of the source. *)
Variable number : Type.
Variable number_of_Z : Z -> number.
Variable number_to_string : number -> string.

Record RectangleSkeletonLoaderProps : Type := mkRectangleProps {
  height : number;
  width : number;
  borderRadius : option number
}.

(** [a ?? b] *)
Definition nullish {A : Type} (a : option A) (b : A) : A :=
  match a with Some x => x | None => b end.

Definition px (n : number) : string := number_to_string n +:+ "px".

(** Style rules are lists of declarations, property and value, in order.
    [animation-name] is the name the [keyframes] helper generates for
    [skeletonFade]. *)
Definition BaseLoader : list (string * string) :=
  [ ("animation-duration", "1500ms");
    ("animation-iteration-count", "infinite");
    ("animation-name", "skeletonFade");
    ("animation-timing-function", "ease-in-out");
    ("background-color", "rgba(var(--center-channel-color-rgb), 0.08)") ].

(** [styled(BaseLoader)]: the declarations of [BaseLoader] followed by
    those of the template. *)
Definition RectangleSkeletonLoader (props : RectangleSkeletonLoaderProps)
  : list (string * string) :=
  BaseLoader ++
  [ ("height", px (height props));
    ("width", px (width props));
    ("border-radius", px (nullish (borderRadius props) (number_of_Z 8))) ].

(** The value the rendered rule gives a property: the last declaration of
    it. *)
Fixpoint declared (prop : string) (css : list (string * string))
  : option string :=
  match css with
  | [] => None
  | (name, value) :: rest =>
      match declared prop rest with
      | Some later => Some later
      | None => if String.eqb name prop then Some value else None
      end
  end.

Record CircleSkeletonLoaderProps : Type := mkCircleProps { size : number }.

(** [styled(BaseLoader)] for the circle. *)
Definition CircleSkeletonLoader (props : CircleSkeletonLoaderProps)
  : list (string * string) :=
  BaseLoader ++
  [ ("display", "block");
    ("border-radius", "50%");
    ("height", px (size props));
    ("width", px (size props)) ].

End Loader.

Definition string_of_Z (z : Z) : string :=
  NilZero.string_of_int (Z.to_int z).

End Skeleton.

(** * Properties of the subscription modal *)

Module CloudSubscribeFacts.

Import CloudSubscribe.

(** The counter of a mounted component after one tick, and at the soft
    maximum: 93 + 3 is clamped to 95, and 95 stays. *)
Example first_tick :
  progress (updateProgress mountIntervalId initialModel) = 3%Z.
Proof. reflexivity. Qed.

Example clamped_tick :
  progress (updateProgress mountIntervalId (set_progress 93 initialModel)) = 95%Z /\
  progress (updateProgress mountIntervalId (set_progress 95 initialModel)) = 95%Z.
Proof. split; reflexivity. Qed.

(** A timeout set at 3000 for a request started at 1000 does not fire at
    8999. *)
Example timeout_too_early :
  let p := mkProps None None in
  run p (mount p 1000)
    [mkEvent 3000 (Resolved (JBoolean true)); mkEvent 8999 TimeoutFires] = None.
Proof. reflexivity. Qed.

Lemma completed_enter (c : Call) (m : Model) :
  completed (enter c m) = completed m || is_complete c.
Proof.
  unfold completed, enter; simpl.
  rewrite existsb_app; simpl. now rewrite orb_false_r.
Qed.

Lemma clearInterval_fields (i : option TimerId) (m : Model) :
  progress (clearInterval i m) = progress m /\
  error (clearInterval i m) = error m /\
  processingState (clearInterval i m) = processingState m /\
  completion (clearInterval i m) = completion m /\
  issued (clearInterval i m) = issued m /\
  calls (clearInterval i m) = calls m.
Proof.
  unfold clearInterval.
  destruct i as [i|], (interval m) as [j|]; try (repeat split; reflexivity).
  destruct (Nat.eqb i j); repeat split; reflexivity.
Qed.

Lemma completed_clearInterval (i : option TimerId) (m : Model) :
  completed (clearInterval i m) = completed m.
Proof.
  unfold completed. now destruct (clearInterval_fields i m) as (_ & _ & _ & _ & _ & ->).
Qed.

(** [updateProgress] touches nothing but the counter and the interval, and
    moves the counter up, never past the soft maximum it has not passed
    already. *)
Lemma updateProgress_fields (i : option TimerId) (m : Model) :
  let m' := updateProgress i m in
  error m' = error m /\
  processingState m' = processingState m /\
  completion m' = completion m /\
  issued m' = issued m /\
  completed m' = completed m /\
  (progress m <= progress m')%Z /\
  ((progress m <= MAX_FAKE_PROGRESS)%Z -> (progress m' <= MAX_FAKE_PROGRESS)%Z) /\
  ((MAX_FAKE_PROGRESS <= progress m)%Z -> progress m' = progress m).
Proof.
  unfold updateProgress, MAX_FAKE_PROGRESS; simpl.
  destruct (Z.leb_spec 95 (progress m)) as [Hge|Hlt].
  - destruct (clearInterval_fields i (enter CallUpdateProgress m))
      as (Hp & He & Hs & Hc & Hi & Hl).
    rewrite Hp, He, Hs, Hc, Hi, completed_clearInterval, completed_enter; simpl.
    rewrite orb_false_r. repeat split; lia.
  - unfold completed; simpl. rewrite existsb_app; simpl. rewrite orb_false_r.
    destruct (Z.ltb_spec 95 (progress m + 3)); repeat split; lia.
Qed.

Lemma completeSubscribe_fields (i : option TimerId) (m : Model) :
  let m' := completeSubscribe i m in
  progress m' = 100%Z /\
  error m' = error m /\
  processingState m' = SUCCESS /\
  completion m' = completion m /\
  issued m' = issued m /\
  completed m' = true.
Proof.
  unfold completeSubscribe; simpl.
  destruct (clearInterval_fields i (enter CallCompleteSubscribe m))
    as (Hp & He & Hs & Hc & Hi & Hl).
  unfold completed; simpl. rewrite He, Hc, Hi, Hl; simpl.
  rewrite existsb_app; simpl. rewrite orb_true_r. repeat split; reflexivity.
Qed.

Lemma handleGoBack_fields (i : option TimerId) (m : Model) :
  let m' := handleGoBack i m in
  progress m' = 0%Z /\
  error m' = false /\
  processingState m' = PROCESSING /\
  completion m' = completion m /\
  issued m' = issued m ++ [OnBack] /\
  calls m' = calls m ++ [CallHandleGoBack] /\
  completed m' = completed m.
Proof.
  unfold handleGoBack; simpl.
  destruct (clearInterval_fields i (enter CallHandleGoBack m))
    as (Hp & He & Hs & Hc & Hi & Hl).
  unfold completed; simpl. rewrite Hc, Hi, Hl; simpl.
  rewrite existsb_app; simpl. rewrite orb_false_r. repeat split; reflexivity.
Qed.

Lemma handleClose_fields (m : Model) :
  let m' := handleClose m in
  progress m' = progress m /\
  error m' = error m /\
  processingState m' = processingState m /\
  completion m' = completion m /\
  completed m' = completed m.
Proof.
  unfold handleClose, completed; simpl.
  rewrite existsb_app; simpl. rewrite orb_false_r. repeat split; reflexivity.
Qed.

Lemma handleSubscribe_resolved_cases (i : option TimerId) (start t : Z)
    (v : JSValue) (m : Model) :
  let m' := handleSubscribe_resolved i start t v m in
  (is_boolean v = false /\ m' = setProcessingState FAILED (setError true m)) \/
  (is_boolean v = true /\ (t - start < MIN_PROCESSING_MILLISECONDS)%Z /\
   m' = setTimeout t (MIN_PROCESSING_MILLISECONDS - (t - start)) m) \/
  (is_boolean v = true /\ (MIN_PROCESSING_MILLISECONDS <= t - start)%Z /\
   m' = completeSubscribe i m).
Proof.
  unfold handleSubscribe_resolved.
  destruct (is_boolean v); simpl; [right|left; split; reflexivity].
  destruct (Z.ltb_spec (t - start) MIN_PROCESSING_MILLISECONDS);
    [left|right]; repeat split; assumption.
Qed.

Lemma mount_fields (p : Props) (t0 : Z) :
  let w := mount p t0 in
  now w = t0 /\
  (exists a, pending w = Some a /\ start_of a = t0 /\
     (teamToKeep p = None -> a = AwaitSubscribe t0) /\
     (teamToKeep p <> None -> a = AwaitArchive t0)) /\
  progress (model w) = 0%Z /\ error (model w) = false /\
  processingState (model w) = PROCESSING /\
  completion (model w) = None /\ completed (model w) = false.
Proof.
  unfold mount, handleSubscribe, handleSubscribe_request.
  destruct (teamToKeep p) as [team|]; simpl;
    (split; [reflexivity|]); (split; [|repeat split; reflexivity]);
    eexists; (split; [reflexivity|]); (split; [reflexivity|]);
    split; intros; congruence.
Qed.

Lemma mount_inv (p : Props) (t0 : Z) : Inv t0 (mount p t0).
Proof.
  destruct (mount_fields p t0) as (Hn & _ & Hp & He & Hs & Hc & Hd).
  split; rewrite ?Hn, ?Hp, ?He, ?Hs, ?Hc, ?Hd; unfold MAX_FAKE_PROGRESS.
  - lia.
  - intros a Ha. destruct (mount_fields p t0) as (_ & (a' & Ha' & Hst & _) & _).
    rewrite Ha in Ha'. injection Ha' as ->. repeat split; assumption.
  - discriminate.
  - intros _. split; [lia|discriminate].
  - discriminate.
Qed.

(** Every turn of the event loop keeps the invariant. *)
Lemma step_inv (p : Props) (t0 : Z) (w w' : World) (e : Event) :
  Inv t0 w -> step p w e = Some w' -> Inv t0 w'.
Proof.
  intros [Hclk Hpend Htm Hbef Haft] Hstep.
  unfold step in Hstep.
  destruct (Z.ltb_spec (at_ e) (now w)) as [|Hle]; [discriminate|].
  destruct (what e) as [| |v| | |].
  - (* Tick *)
    destruct (interval (model w)); [|discriminate].
    injection Hstep as <-.
    destruct (updateProgress_fields mountIntervalId (model w))
      as (He & Hs & Hc & _ & Hd & Hmono & Hmax & Hfix).
    split; cbn [model now pending]; rewrite ?He, ?Hs, ?Hc, ?Hd.
    + lia.
    + exact Hpend.
    + exact Htm.
    + intros H. destruct (Hbef H) as [[H0 H95] Hns]. split; [|exact Hns].
      split; [lia|auto].
    + intros H. destruct (Haft H) as (H100 & Hs' & Hc' & Hp' & Ht).
      repeat split; try assumption; [|lia].
      rewrite Hfix; [assumption|]. unfold MAX_FAKE_PROGRESS. lia.
  - (* Archived *)
    destruct (pending w) as [[start|start]|] eqn:Hp; try discriminate.
    simpl in Hstep. injection Hstep as <-.
    destruct (Hpend _ eq_refl) as (Hst & Hc & Hd & He & Hs).
    split; simpl.
    + lia.
    + intros a [= <-]. repeat split; assumption.
    + rewrite Hc. discriminate.
    + exact Hbef.
    + unfold completed in *; simpl. rewrite Hd. discriminate.
  - (* Resolved *)
    destruct (pending w) as [[start|start]|] eqn:Hp; try discriminate.
    injection Hstep as <-.
    destruct (Hpend _ eq_refl) as (Hst & Hc & Hd & He & Hs).
    simpl in Hst. subst start.
    destruct (Hbef Hd) as [Hrange _].
    destruct (handleSubscribe_resolved_cases mountIntervalId t0 (at_ e) v (model w))
      as [(_ & ->)|[(_ & Hlt & ->)|(_ & Hge & ->)]].
    + split; simpl.
      * lia.
      * discriminate.
      * rewrite Hc. discriminate.
      * intros _. split; [assumption|discriminate].
      * unfold completed in *; simpl. rewrite Hd. discriminate.
    + split; simpl.
      * lia.
      * discriminate.
      * intros tm [= <-]. simpl. split; [lia|exact Hd].
      * intros _. split; [assumption|]. rewrite Hs. discriminate.
      * unfold completed in *; simpl. rewrite Hd. discriminate.
    + destruct (completeSubscribe_fields mountIntervalId (model w))
        as (H100 & He' & Hs' & Hc' & _ & Hd').
      split; cbn [model now pending]; rewrite ?H100, ?He', ?Hs', ?Hc', ?Hd'.
      * lia.
      * discriminate.
      * rewrite Hc. discriminate.
      * discriminate.
      * intros _. repeat split; try assumption. lia.
  - (* TimeoutFires *)
    destruct (completion (model w)) as [tm|] eqn:Hc; [|discriminate].
    destruct (Z.leb_spec (setAt tm + delay tm) (at_ e)) as [Hdue|]; [|discriminate].
    injection Hstep as <-.
    destruct (Htm _ eq_refl) as (Hsum & Hd).
    destruct (completeSubscribe_fields mountIntervalId (set_completion None (model w)))
      as (H100 & He' & Hs' & Hc' & _ & Hd').
    assert (Hnp : pending w = None).
    { destruct (pending w) as [a|] eqn:Hp; [|reflexivity].
      destruct (Hpend _ eq_refl) as (_ & Hc'' & _). congruence. }
    split; cbn [model now pending]; rewrite ?H100, ?He', ?Hs', ?Hc', ?Hd'.
    + lia.
    + rewrite Hnp. discriminate.
    + simpl. discriminate.
    + discriminate.
    + intros _. repeat split; try assumption. lia.
  - (* GoBack *)
    destruct (processingState (model w)) eqn:Hs; try discriminate.
    injection Hstep as <-.
    destruct (handleGoBack_fields renderIntervalId (model w))
      as (H0 & He' & Hs' & Hc' & _ & _ & Hd').
    assert (Hd : completed (model w) = false).
    { destruct (completed (model w)) eqn:Hd; [|reflexivity].
      destruct (Haft eq_refl) as (_ & Hs'' & _). congruence. }
    split; cbn [model now pending]; rewrite ?H0, ?He', ?Hs', ?Hc', ?Hd'.
    + lia.
    + intros a Ha. destruct (Hpend _ Ha) as (Hst & Hc & _).
      repeat split; assumption.
    + exact Htm.
    + intros _. unfold MAX_FAKE_PROGRESS. split; [lia|discriminate].
    + rewrite Hd. discriminate.
  - (* Close *)
    injection Hstep as <-.
    destruct (handleClose_fields (model w)) as (Hp' & He' & Hs' & Hc' & Hd').
    split; cbn [model now pending]; rewrite ?Hp', ?He', ?Hs', ?Hc', ?Hd'.
    + lia.
    + exact Hpend.
    + exact Htm.
    + exact Hbef.
    + intros H. destruct (Haft H) as (? & ? & ? & ? & ?).
      repeat split; try assumption. lia.
Qed.

Lemma run_app (p : Props) (w : World) (evs1 evs2 : list Event) :
  run p w (evs1 ++ evs2) =
  match run p w evs1 with Some w1 => run p w1 evs2 | None => None end.
Proof.
  revert w. induction evs1 as [|e evs1 IH]; intros w; simpl; [reflexivity|].
  destruct (step p w e); [apply IH|reflexivity].
Qed.

Lemma run_inv (p : Props) (t0 : Z) (evs : list Event) (w w' : World) :
  Inv t0 w -> run p w evs = Some w' -> Inv t0 w'.
Proof.
  revert w. induction evs as [|e evs IH]; intros w Hinv Hrun; simpl in Hrun.
  - now injection Hrun as <-.
  - destruct (step p w e) as [w1|] eqn:Hstep; [|discriminate].
    eapply IH; [|exact Hrun]. eapply step_inv; eassumption.
Qed.



(** The failure path is closed: nothing that can happen leaves it. *)
Lemma step_failed_path (p : Props) (w w' : World) (e : Event) :
  FailedPath w -> step p w e = Some w' -> FailedPath w'.
Proof.
  intros (Hp & Hc & Hd) Hstep. unfold step in Hstep. unfold FailedPath.
  destruct (Z.ltb_spec (at_ e) (now w)) as [|Hle]; [discriminate|].
  rewrite Hp, Hc in Hstep.
  destruct (what e) as [| |v| | |]; try discriminate.
  - destruct (interval (model w)); [|discriminate].
    injection Hstep as <-. cbn [model pending].
    destruct (updateProgress_fields mountIntervalId (model w))
      as (_ & _ & -> & _ & -> & _). auto.
  - destruct (processingState (model w)); try discriminate.
    injection Hstep as <-. cbn [model pending].
    destruct (handleGoBack_fields renderIntervalId (model w))
      as (_ & _ & _ & -> & _ & _ & ->). auto.
  - injection Hstep as <-. cbn [model pending].
    destruct (handleClose_fields (model w)) as (_ & _ & _ & -> & ->). auto.
Qed.

Lemma run_failed_path (p : Props) (evs : list Event) (w w' : World) :
  FailedPath w -> run p w evs = Some w' -> FailedPath w'.
Proof.
  revert w. induction evs as [|e evs IH]; intros w Hf Hrun; simpl in Hrun.
  - now injection Hrun as <-.
  - destruct (step p w e) as [w1|] eqn:Hstep; [|discriminate].
    eapply IH; [|exact Hrun]. eapply step_failed_path; eassumption.
Qed.

(** So is the success path: the state is [SUCCESS], or it is [PROCESSING]
    with the completion timeout pending. *)
Lemma step_success_path (p : Props) (t0 : Z) (w w' : World) (e : Event) :
  SuccessPath t0 w -> step p w e = Some w' -> SuccessPath t0 w'.
Proof.
  intros (Hp & He & Hcases) Hstep. unfold step in Hstep. unfold SuccessPath.
  destruct (Z.ltb_spec (at_ e) (now w)) as [|Hle]; [discriminate|].
  rewrite Hp in Hstep.
  destruct (what e) as [| |v| | |]; try discriminate.
  - destruct (interval (model w)); [|discriminate].
    injection Hstep as <-. cbn [model pending].
    destruct (updateProgress_fields mountIntervalId (model w))
      as (-> & -> & -> & _ & _ & _ & _ & Hfix).
    repeat split; try assumption.
    destruct Hcases as [[Hs H100]|Hcase]; [left|right; exact Hcase].
    split; [assumption|]. rewrite Hfix; [assumption|].
    unfold MAX_FAKE_PROGRESS. lia.
  - destruct (completion (model w)) as [tm|]; [|discriminate].
    destruct (Z.leb_spec (setAt tm + delay tm) (at_ e)); [|discriminate].
    injection Hstep as <-. cbn [model pending].
    destruct (completeSubscribe_fields mountIntervalId (set_completion None (model w)))
      as (-> & -> & -> & _).
    repeat split; try assumption. left. split; reflexivity.
  - destruct (processingState (model w)) eqn:Hs; try discriminate.
    destruct Hcases as [[? _]|[? _]]; discriminate.
  - injection Hstep as <-. cbn [model pending].
    destruct (handleClose_fields (model w)) as (-> & -> & -> & -> & _).
    repeat split; assumption.
Qed.

Lemma run_success_path (p : Props) (t0 : Z) (evs : list Event) (w w' : World) :
  SuccessPath t0 w -> run p w evs = Some w' -> SuccessPath t0 w'.
Proof.
  revert w. induction evs as [|e evs IH]; intros w Hs Hrun; simpl in Hrun.
  - now injection Hrun as <-.
  - destruct (step p w e) as [w1|] eqn:Hstep; [|discriminate].
    eapply IH; [|exact Hrun]. eapply step_success_path; eassumption.
Qed.

(** A run that ends with the request resolving: the world before, which
    was waiting for it, and the world after. *)
Lemma run_resolved (p : Props) (t0 t : Z) (v : JSValue) (evs : list Event)
    (w1 : World) :
  run p (mount p t0) (evs ++ [mkEvent t (Resolved v)]) = Some w1 ->
  exists w, run p (mount p t0) evs = Some w /\ Inv t0 w /\
    pending w = Some (AwaitSubscribe t0) /\ (now w <= t)%Z /\
    w1 = mkWorld (handleSubscribe_resolved mountIntervalId t0 t v (model w)) t None.
Proof.
  rewrite run_app. destruct (run p (mount p t0) evs) as [w|] eqn:Hrun;
    [|discriminate].
  intros Hstep. exists w. split; [reflexivity|].
  pose proof (run_inv p t0 evs _ _ (mount_inv p t0) Hrun) as Hinv.
  split; [assumption|].
  simpl in Hstep. unfold step in Hstep. simpl in Hstep.
  destruct (Z.ltb_spec t (now w)); [discriminate|].
  destruct (pending w) as [[start|start]|] eqn:Hp; try discriminate.
  destruct (inv_pending _ _ Hinv _ Hp) as (Hst & _). simpl in Hst. subst start.
  injection Hstep as <-. repeat split; assumption.
Qed.



(** C2. In every run from a mount at [t0], the recorded request start,
    [completeSubscribe] has not run and the state is not [SUCCESS] before
    [t0 + 8000]. When the request resolves with a boolean at [t]: if the
    elapsed time [t - t0] is below 8000, completion is scheduled with
    delay [8000 - (t - t0)] and the timeout can fire at exactly the times
    from [t0 + 8000] on; otherwise [completeSubscribe] runs at once. *)
Theorem completion_waits_minimum_duration (p : Props) (t0 : Z)
    (evs : list Event) (w : World) :
  run p (mount p t0) evs = Some w ->
  (processingState (model w) = SUCCESS ->
   (t0 + MIN_PROCESSING_MILLISECONDS <= now w)%Z) /\
  (completed (model w) = true ->
   (t0 + MIN_PROCESSING_MILLISECONDS <= now w)%Z) /\
  (forall t b w', step p w (mkEvent t (Resolved (JBoolean b))) = Some w' ->
     let elapsed := (t - t0)%Z in
     ((elapsed < MIN_PROCESSING_MILLISECONDS)%Z ->
      model w' = setTimeout t (MIN_PROCESSING_MILLISECONDS - elapsed) (model w) /\
      completed (model w') = false /\
      forall t', step p w' (mkEvent t' TimeoutFires) <> None <->
                 (t0 + MIN_PROCESSING_MILLISECONDS <= t')%Z) /\
     ((MIN_PROCESSING_MILLISECONDS <= elapsed)%Z ->
      model w' = completeSubscribe mountIntervalId (model w))).
Proof.
  intros Hrun.
  pose proof (run_inv p t0 evs _ _ (mount_inv p t0) Hrun) as Hinv.
  assert (Hdone : completed (model w) = true ->
                  (t0 + MIN_PROCESSING_MILLISECONDS <= now w)%Z).
  { intros Hd. apply (inv_after _ _ Hinv Hd). }
  split; [|split; [exact Hdone|]].
  - intros Hs. destruct (completed (model w)) eqn:Hd; [auto|].
    destruct (inv_before _ _ Hinv Hd) as [_ Hns]. contradiction.
  - intros t b w' Hstep elapsed. subst elapsed.
    unfold step in Hstep. cbn [at_ what] in Hstep.
    destruct (Z.ltb_spec t (now w)) as [|Hle]; [discriminate|].
    destruct (pending w) as [[start|start]|] eqn:Hp; try discriminate.
    destruct (inv_pending _ _ Hinv _ Hp) as (Hst & _ & Hd & _).
    simpl in Hst. subst start. injection Hstep as <-. cbn [model].
    destruct (handleSubscribe_resolved_cases mountIntervalId t0 t (JBoolean b) (model w))
      as [(Hb & _)|[(_ & Hlt & ->)|(_ & Hge & ->)]]; [discriminate| |].
    + split; [|intros; lia]. intros _. split; [reflexivity|].
      split; [exact Hd|]. intros t'. unfold step, MIN_PROCESSING_MILLISECONDS in *.
      cbn [at_ what model now completion setTimeout set_completion setAt delay].
      destruct (Z.ltb_spec t' t); [split; [congruence|lia]|].
      destruct (Z.leb_spec (t + (8000 - (t - t0))) t');
        split; intros; try congruence; lia.
    + split; [intros; lia|]. intros _. reflexivity.
Qed.

Lemma completion_waits_minimum_duration_witness :
  let p := mkProps (Some "team") (Some "professional") in
  let evs := [mkEvent 1500 Archived; mkEvent 3000 (Resolved (JBoolean true));
              mkEvent 9000 TimeoutFires] in
  exists w, run p (mount p 1000) evs = Some w /\
    processingState (model w) = SUCCESS /\ (1000 + 8000 <= now w)%Z.
Proof.
  intros p evs. eexists.
  split; [vm_compute; reflexivity|].
  split; [reflexivity|].
  refine (proj1 (completion_waits_minimum_duration p 1000 evs _ _) _);
    vm_compute; reflexivity.
Defined.

(** C3. When the request resolves with a value that is not a boolean,
    [handleSubscribe] sets the error flag and the state [FAILED], schedules
    nothing and does not call [completeSubscribe]; and whatever happens
    afterwards, the state never becomes [SUCCESS]. *)
Theorem non_boolean_result_fails (p : Props) (t0 t : Z) (v : JSValue)
    (evs1 evs2 : list Event) (w1 w2 : World) :
  typeof v <> TBoolean ->
  run p (mount p t0) (evs1 ++ [mkEvent t (Resolved v)]) = Some w1 ->
  run p w1 evs2 = Some w2 ->
  (forall i start m,
     handleSubscribe_resolved i start t v m =
     setProcessingState FAILED (setError true m)) /\
  error (model w1) = true /\
  processingState (model w1) = FAILED /\
  completion (model w1) = None /\
  processingState (model w2) <> SUCCESS /\
  completed (model w2) = false.
Proof.
  intros Hty Hrun1 Hrun2.
  assert (Hb : is_boolean v = false).
  { unfold is_boolean. destruct (typeof v); congruence. }
  assert (Hfun : forall i start m,
     handleSubscribe_resolved i start t v m =
     setProcessingState FAILED (setError true m)).
  { intros i start m. unfold handleSubscribe_resolved. now rewrite Hb. }
  split; [exact Hfun|].
  destruct (run_resolved p t0 t v evs1 w1 Hrun1)
    as (w & Hrun & Hinv & Hp & Hle & ->).
  destruct (inv_pending _ _ Hinv _ Hp) as (_ & Hc & Hd & _).
  rewrite Hfun in *. cbn [model].
  split; [reflexivity|]. split; [reflexivity|]. split; [exact Hc|].
  assert (Hf : FailedPath (mkWorld (setProcessingState FAILED (setError true (model w))) t None)).
  { repeat split; assumption. }
  pose proof (run_failed_path p evs2 _ _ Hf Hrun2) as (_ & _ & Hd2).
  assert (Hinv1 : Inv t0 (mkWorld (setProcessingState FAILED (setError true (model w))) t None)).
  { rewrite <- (Hfun mountIntervalId t0).
    apply (step_inv p t0 w _ (mkEvent t (Resolved v)) Hinv).
    unfold step. cbn [at_ what]. rewrite Hp.
    destruct (Z.ltb_spec t (now w)); [lia|reflexivity]. }
  pose proof (run_inv p t0 evs2 _ _ Hinv1 Hrun2) as Hinv2.
  split; [apply (inv_before _ _ Hinv2 Hd2)|exact Hd2].
Qed.

Lemma non_boolean_result_fails_witness :
  let p := mkProps None (Some "professional") in
  let v := JObject [("error", "payment failed")] in
  let evs2 := [mkEvent 2100 Tick; mkEvent 5000 GoBack; mkEvent 5100 Tick] in
  exists w1 w2,
    run p (mount p 1000) ([mkEvent 1084 Tick] ++ [mkEvent 2000 (Resolved v)])
      = Some w1 /\
    run p w1 evs2 = Some w2 /\
    error (model w1) = true /\ processingState (model w1) = FAILED /\
    processingState (model w2) <> SUCCESS.
Proof.
  intros p v evs2. eexists. eexists.
  split; [vm_compute; reflexivity|].
  split; [vm_compute; reflexivity|].
  split; [reflexivity|]. split; [reflexivity|].
  refine (proj1 (proj2 (proj2 (proj2 (proj2
    (non_boolean_result_fails p 1000 2000 v [mkEvent 1084 Tick] evs2 _ _ _ _ _))))));
    [discriminate|vm_compute; reflexivity|vm_compute; reflexivity].
Defined.

(** C6. In every state, [handleGoBack] sets the progress counter to 0, the
    error flag to false and the state to [PROCESSING], and calls the
    back-navigation callback; that call is the only action it issues, so
    the subscription request is not issued again, and no completion is
    scheduled. *)
Theorem go_back_resets (i : option TimerId) (m : Model) :
  progress (handleGoBack i m) = 0%Z /\
  error (handleGoBack i m) = false /\
  processingState (handleGoBack i m) = PROCESSING /\
  issued (handleGoBack i m) = issued m ++ [OnBack] /\
  calls (handleGoBack i m) = calls m ++ [CallHandleGoBack] /\
  completion (handleGoBack i m) = completion m.
Proof.
  destruct (handleGoBack_fields i m) as (H0 & He & Hs & Hc & Hi & Hl & _).
  repeat split; assumption.
Qed.

(** C8. A request that resolves with the boolean [false] is handled
    exactly as one that resolves with [true]: the check is on the type
    only. From then on the error flag stays unset, and the state is
    [SUCCESS] or it is [PROCESSING] with the completion timeout pending;
    once that timeout has fired the state is [SUCCESS]. *)
Theorem false_result_takes_success_path (p : Props) (t0 t : Z)
    (evs1 evs2 : list Event) (w1 w2 : World) :
  run p (mount p t0) (evs1 ++ [mkEvent t (Resolved (JBoolean false))]) = Some w1 ->
  run p w1 evs2 = Some w2 ->
  (forall i start m,
     handleSubscribe_resolved i start t (JBoolean false) m =
     handleSubscribe_resolved i start t (JBoolean true) m) /\
  run p (mount p t0) (evs1 ++ [mkEvent t (Resolved (JBoolean true))]) = Some w1 /\
  error (model w2) = false /\
  (processingState (model w2) = SUCCESS \/
   processingState (model w2) = PROCESSING /\ completion (model w2) <> None) /\
  exists evs3 w3,
    run p w2 evs3 = Some w3 /\
    processingState (model w3) = SUCCESS /\
    error (model w3) = false /\
    progress (model w3) = 100%Z.
Proof.
  intros Hrun1 Hrun2.
  split; [reflexivity|].
  destruct (run_resolved p t0 t _ evs1 w1 Hrun1)
    as (w & Hrun & Hinv & Hp & Hle & ->).
  split.
  { rewrite run_app, Hrun. simpl. unfold step. cbn [at_ what]. rewrite Hp.
    destruct (Z.ltb_spec t (now w)); [lia|reflexivity]. }
  destruct (inv_pending _ _ Hinv _ Hp) as (_ & Hc & Hd & He & Hs).
  assert (Hsp : SuccessPath t0
    (mkWorld (handleSubscribe_resolved mountIntervalId t0 t (JBoolean false) (model w)) t None)).
  { split; [reflexivity|]. cbn [model].
    destruct (handleSubscribe_resolved_cases mountIntervalId t0 t (JBoolean false) (model w))
      as [(Hb & _)|[(_ & Hlt & ->)|(_ & Hge & ->)]]; [discriminate| |].
    - split; [exact He|]. right. split; [exact Hs|].
      eexists. split; [reflexivity|]. simpl. lia.
    - destruct (completeSubscribe_fields mountIntervalId (model w))
        as (-> & -> & -> & _).
      split; [exact He|]. left. split; reflexivity. }
  pose proof (run_success_path p t0 evs2 _ _ Hsp Hrun2) as (Hp2 & He2 & Hcases).
  split; [exact He2|].
  destruct Hcases as [[Hs2 H100]|[Hs2 (tm & Hc2 & Hdue)]].
  - split; [left; exact Hs2|].
    exists [], w2. repeat split; assumption.
  - split; [right; split; [exact Hs2|congruence]|].
    exists [mkEvent (Z.max (now w2) (setAt tm + delay tm)) TimeoutFires].
    eexists. simpl. unfold step. cbn [at_ what]. rewrite Hc2.
    destruct (Z.ltb_spec (Z.max (now w2) (setAt tm + delay tm)) (now w2)); [lia|].
    destruct (Z.leb_spec (setAt tm + delay tm)
                (Z.max (now w2) (setAt tm + delay tm))); [|lia].
    split; [reflexivity|]. cbn [model].
    destruct (completeSubscribe_fields mountIntervalId (set_completion None (model w2)))
      as (-> & -> & -> & _).
    repeat split. exact He2.
Qed.

Lemma false_result_takes_success_path_witness :
  let p := mkProps None (Some "professional") in
  let evs1 := [mkEvent 1084 Tick] in
  let evs2 := [mkEvent 2100 Tick; mkEvent 9000 TimeoutFires] in
  exists w1 w2,
    run p (mount p 1000) (evs1 ++ [mkEvent 2000 (Resolved (JBoolean false))])
      = Some w1 /\
    run p w1 evs2 = Some w2 /\
    processingState (model w2) = SUCCESS /\
    error (model w2) = false.
Proof.
  intros p evs1 evs2. eexists. eexists.
  split; [vm_compute; reflexivity|].
  split; [vm_compute; reflexivity|].
  split; [reflexivity|].
  refine (proj1 (proj2 (proj2
    (false_result_takes_success_path p 1000 2000 evs1 evs2 _ _ _ _))));
    vm_compute; reflexivity.
Defined.

(** ** Further properties of the modal *)

Lemma updateProgress_interval (i : option TimerId) (m : Model) :
  interval (updateProgress i m) =
  if (MAX_FAKE_PROGRESS <=? progress m)%Z
  then interval (clearInterval i m) else interval m.
Proof.
  destruct m as [pr er st iv cp ac cs].
  unfold updateProgress, clearInterval. cbn.
  destruct (MAX_FAKE_PROGRESS <=? pr)%Z; [|reflexivity].
  destruct i as [i|], iv as [j|]; try reflexivity.
  destruct (Nat.eqb i j); reflexivity.
Qed.

Lemma updateProgress_progress (i : option TimerId) (m : Model) :
  (0 <= progress m)%Z ->
  progress (updateProgress i m) =
  Z.min (Z.max (progress m) (Z.min (progress m + 3) MAX_FAKE_PROGRESS))
        (Z.max (progress m) MAX_FAKE_PROGRESS).
Proof.
  intros H0. unfold updateProgress, MAX_FAKE_PROGRESS. cbn [progress enter].
  destruct (Z.leb_spec 95 (progress m)).
  - destruct (clearInterval_fields i (enter CallUpdateProgress m)) as (-> & _).
    simpl. lia.
  - simpl. destruct (Z.ltb_spec 95 (progress m + 3)); lia.
Qed.

(** X1. Ticks alone: starting from the mounted counter 0 with the
    interval running, after [n] ticks the counter is [min (3 n) 95]; the
    interval is still running after up to 32 ticks and the 33rd tick, the
    first to find the counter at 95, clears it. *)
Theorem ticks_closed_form (n : nat) (m : Model) :
  progress m = 0%Z -> interval m = mountIntervalId ->
  progress (ticks n m) = Z.min (3 * Z.of_nat n) MAX_FAKE_PROGRESS /\
  interval (ticks n m) = if (n <=? 32)%nat then mountIntervalId else None.
Proof.
  intros Hp Hi. unfold MAX_FAKE_PROGRESS.
  induction n as [|n [IHp IHi]].
  - change (ticks 0 m) with m. rewrite Hp, Hi. split; reflexivity.
  - change (ticks (S n) m) with (updateProgress mountIntervalId (ticks n m)).
    split.
    + rewrite updateProgress_progress by (rewrite IHp; lia).
      rewrite IHp. unfold MAX_FAKE_PROGRESS. lia.
    + rewrite updateProgress_interval, IHp. unfold MAX_FAKE_PROGRESS.
      destruct (Z.leb_spec 95 (Z.min (3 * Z.of_nat n) 95)) as [Hge|Hlt].
      * assert (32 <= n) by lia.
        destruct (Nat.leb_spec (S n) 32) as [|_]; [lia|].
        unfold clearInterval, mountIntervalId in *.
        destruct (Nat.leb_spec n 32); rewrite IHi; [reflexivity|exact IHi].
      * rewrite IHi.
        destruct (Nat.leb_spec n 32), (Nat.leb_spec (S n) 32);
          try reflexivity; lia.
Qed.

Lemma ticks_closed_form_witness :
  let m := model (mount (mkProps None (Some "professional")) 1000) in
  progress (ticks 31 m) = 93%Z /\ progress (ticks 32 m) = 95%Z /\
  interval (ticks 32 m) = Some 1 /\ interval (ticks 33 m) = None.
Proof.
  intros m.
  pose proof (ticks_closed_form 31 m eq_refl eq_refl) as [H31 _].
  pose proof (ticks_closed_form 32 m eq_refl eq_refl) as [H32 Hi32].
  pose proof (ticks_closed_form 33 m eq_refl eq_refl) as [_ Hi33].
  repeat split; assumption.
Defined.

(** The error flag is set exactly in the state [FAILED], and while a
    completion is scheduled the attempt is still processing. *)
Lemma step_flags (p : Props) (t0 : Z) (w w' : World) (e : Event) :
  Inv t0 w ->
  (error (model w) = true <-> processingState (model w) = FAILED) ->
  (completion (model w) <> None ->
   error (model w) = false /\ processingState (model w) = PROCESSING) ->
  step p w e = Some w' ->
  (error (model w') = true <-> processingState (model w') = FAILED) /\
  (completion (model w') <> None ->
   error (model w') = false /\ processingState (model w') = PROCESSING).
Proof.
  intros Hinv Hflag Hsched Hstep. unfold step in Hstep.
  destruct (Z.ltb_spec (at_ e) (now w)) as [|Hle]; [discriminate|].
  destruct (what e) as [| |v| | |].
  - destruct (interval (model w)); [|discriminate].
    injection Hstep as <-. cbn [model].
    destruct (updateProgress_fields mountIntervalId (model w))
      as (-> & -> & -> & _). split; assumption.
  - destruct (pending w) as [[start|start]|]; try discriminate.
    simpl in Hstep. injection Hstep as <-. split; assumption.
  - destruct (pending w) as [[start|start]|] eqn:Hp; try discriminate.
    injection Hstep as <-. cbn [model].
    destruct (inv_pending _ _ Hinv _ Hp) as (_ & Hc & _ & He & Hs).
    destruct (handleSubscribe_resolved_cases mountIntervalId start (at_ e) v (model w))
      as [(_ & ->)|[(_ & _ & ->)|(_ & _ & ->)]].
    + simpl. rewrite Hc. split; [split; reflexivity|congruence].
    + simpl. rewrite He, Hs. split; [split; discriminate|auto].
    + destruct (completeSubscribe_fields mountIntervalId (model w))
        as (_ & -> & -> & -> & _).
      rewrite He, Hc. split; [split; discriminate|congruence].
  - destruct (completion (model w)) as [tm|] eqn:Hc; [|discriminate].
    destruct (Z.leb_spec (setAt tm + delay tm) (at_ e)); [|discriminate].
    injection Hstep as <-. cbn [model].
    destruct Hsched as [He _]; [discriminate|].
    destruct (completeSubscribe_fields mountIntervalId (set_completion None (model w)))
      as (_ & -> & -> & -> & _).
    simpl. rewrite He. split; [split; discriminate|congruence].
  - destruct (processingState (model w)) eqn:Hs; try discriminate.
    injection Hstep as <-. cbn [model].
    destruct (handleGoBack_fields renderIntervalId (model w))
      as (_ & -> & -> & -> & _).
    split; [split; discriminate|].
    intros Hc. destruct (Hsched Hc) as [_ ?]. discriminate.
  - injection Hstep as <-. cbn [model].
    destruct (handleClose_fields (model w)) as (_ & -> & -> & -> & _).
    split; assumption.
Qed.

Lemma run_flags (p : Props) (t0 : Z) (evs : list Event) (w w' : World) :
  Inv t0 w ->
  (error (model w) = true <-> processingState (model w) = FAILED) ->
  (completion (model w) <> None ->
   error (model w) = false /\ processingState (model w) = PROCESSING) ->
  run p w evs = Some w' ->
  (error (model w') = true <-> processingState (model w') = FAILED) /\
  (completion (model w') <> None ->
   error (model w') = false /\ processingState (model w') = PROCESSING).
Proof.
  revert w. induction evs as [|e evs IH]; intros w Hinv Hf Hs Hrun;
    simpl in Hrun.
  - injection Hrun as <-. split; assumption.
  - destruct (step p w e) as [w1|] eqn:Hstep; [|discriminate].
    destruct (step_flags p t0 w w1 e Hinv Hf Hs Hstep) as [Hf1 Hs1].
    exact (IH w1 (step_inv p t0 w w1 e Hinv Hstep) Hf1 Hs1 Hrun).
Qed.

(** The last of the states of a turn is the state the turn ends in. *)
Lemma frames_last (p : Props) (w w' : World) (e : Event) :
  step p w e = Some w' -> last (frames p w e) = Some (model w').
Proof.
  intros Hstep. unfold step in Hstep. unfold frames.
  destruct (at_ e <? now w)%Z; [discriminate|].
  destruct (what e) as [| |v| | |].
  - destruct (interval (model w)); [|discriminate]. now injection Hstep as <-.
  - destruct (pending w) as [[start|start]|]; try discriminate.
    simpl in Hstep. now injection Hstep as <-.
  - destruct (pending w) as [[start|start]|]; try discriminate.
    injection Hstep as <-. cbn [model start_of].
    unfold handleSubscribe_resolved_frames, handleSubscribe_resolved.
    destruct (negb (is_boolean v)); [reflexivity|].
    destruct (at_ e - start <? MIN_PROCESSING_MILLISECONDS)%Z; reflexivity.
  - destruct (completion (model w)) as [tm|]; [|discriminate].
    destruct (setAt tm + delay tm <=? at_ e)%Z; [|discriminate].
    now injection Hstep as <-.
  - destruct (processingState (model w)); try discriminate.
    now injection Hstep as <-.
  - now injection Hstep as <-.
Qed.

(** X2. In every world a mounted component can reach, go-backs included,
    once the handler that ran has returned the error flag is set exactly
    when the state is [FAILED]. Between the two setter calls of one
    handler the flag and the state can disagree (after a failed request
    the flag is set while the state is still [PROCESSING]), but in no
    state a turn goes through, those in between included, is the state
    [SUCCESS] with the error flag set: the success page is always given
    [error = false]. *)
Theorem error_flag_marks_failure (p : Props) (t0 : Z) (evs : list Event)
    (w : World) :
  run p (mount p t0) evs = Some w ->
  (error (model w) = true <-> processingState (model w) = FAILED) /\
  (forall e w', step p w e = Some w' ->
     last (frames p w e) = Some (model w') /\
     forall frame, In frame (frames p w e) ->
       processingState frame = SUCCESS ->
       error frame = false /\
       error_prop (modalContent frame) = Some false).
Proof.
  intros Hrun.
  pose proof (run_inv p t0 evs _ _ (mount_inv p t0) Hrun) as Hinv.
  destruct (mount_fields p t0) as (_ & _ & _ & He0 & Hs0 & Hc0 & _).
  assert (Hf0 : error (model (mount p t0)) = true <->
                processingState (model (mount p t0)) = FAILED).
  { rewrite He0, Hs0. split; discriminate. }
  assert (Hsch0 : completion (model (mount p t0)) <> None ->
                  error (model (mount p t0)) = false /\
                  processingState (model (mount p t0)) = PROCESSING).
  { rewrite Hc0. congruence. }
  destruct (run_flags p t0 evs _ w (mount_inv p t0) Hf0 Hsch0 Hrun)
    as [Hflag Hsched].
  split; [exact Hflag|].
  intros e w' Hstep. split; [exact (frames_last p w w' e Hstep)|].
  assert (Hpage : forall frame, processingState frame = SUCCESS ->
            error frame = false ->
            error frame = false /\
            error_prop (modalContent frame) = Some false).
  { intros frame Hs He. split; [exact He|].
    unfold modalContent, sucessPage. rewrite Hs. cbn. now rewrite He. }
  assert (Hsettled : processingState (model w) = SUCCESS ->
                     error (model w) = false).
  { intros Hs. destruct (error (model w)); [|reflexivity].
    destruct Hflag as [Hflag _]. rewrite Hs in Hflag.
    discriminate (Hflag eq_refl). }
  intros frame Hin Hs. apply Hpage; [exact Hs|].
  unfold step in Hstep. unfold frames in Hin.
  destruct (at_ e <? now w)%Z; [discriminate|].
  destruct (what e) as [| |v| | |].
  - destruct Hin as [<-|[]].
    destruct (updateProgress_fields mountIntervalId (model w))
      as (He & Hst & _).
    rewrite He. apply Hsettled. now rewrite <- Hst.
  - destruct Hin as [<-|[]]. apply Hsettled. exact Hs.
  - destruct (pending w) as [a|] eqn:Hp; [|discriminate].
    destruct (inv_pending _ _ Hinv _ Hp) as (_ & _ & _ & He & Hst).
    unfold handleSubscribe_resolved_frames in Hin.
    destruct (negb (is_boolean v)).
    + destruct Hin as [<-|[<-|[]]]; simpl in Hs; congruence.
    + destruct (at_ e - start_of a <? MIN_PROCESSING_MILLISECONDS)%Z.
      * destruct Hin as [<-|[]]. exact He.
      * unfold completeSubscribe_frames in Hin.
        destruct (clearInterval_fields mountIntervalId
                    (enter CallCompleteSubscribe (model w)))
          as (_ & Hce & _).
        destruct Hin as [<-|[<-|[]]];
          cbn [error setProcessingState set_progress]; rewrite Hce; exact He.
  - destruct (completion (model w)) as [tm|] eqn:Hc; [|discriminate].
    destruct Hsched as [He _]; [congruence|].
    unfold completeSubscribe_frames in Hin.
    destruct (clearInterval_fields mountIntervalId
                (enter CallCompleteSubscribe (set_completion None (model w))))
      as (_ & Hce & _).
    destruct Hin as [<-|[<-|[]]];
          cbn [error setProcessingState set_progress]; rewrite Hce; exact He.
  - unfold handleGoBack_frames in Hin.
    destruct Hin as [<-|[<-|[<-|[]]]]; reflexivity.
  - destruct Hin as [<-|[]].
    destruct (handleClose_fields (model w)) as (_ & He & Hst & _).
    rewrite He. apply Hsettled. now rewrite <- Hst.
Qed.

Lemma error_flag_marks_failure_witness :
  let p := mkProps None (Some "professional") in
  let failure := mkEvent 2000 (Resolved JNull) in
  exists w,
    run p (mount p 1000) [failure] = Some w /\
    map (fun frame => (error frame, processingState frame))
        (frames p (mount p 1000) failure) =
      [(true, PROCESSING); (true, FAILED)] /\
    processingState (model w) = FAILED /\
    error (model w) = true.
Proof.
  intros p failure. eexists. split; [vm_compute; reflexivity|].
  split; [reflexivity|]. split; [reflexivity|].
  refine (proj2 (proj1 (error_flag_marks_failure p 1000 [failure] _ _)) _);
    vm_compute; reflexivity.
Defined.

Lemma completions_enter (c : Call) (m : Model) :
  completions (enter c m) =
  completions m + (if is_complete c then 1 else 0).
Proof.
  unfold completions, enter. cbn [calls].
  rewrite List.filter_app, length_app. simpl.
  destruct (is_complete c); reflexivity.
Qed.

Lemma completions_completed (m : Model) :
  (completed m = false -> completions m = 0) /\
  (completed m = true -> 1 <= completions m).
Proof.
  unfold completed, completions.
  induction (calls m) as [|c cs [IH0 IH1]]; simpl.
  - split; [reflexivity|discriminate].
  - destruct (is_complete c); simpl; split; try discriminate; auto; lia.
Qed.

Lemma handlers_completions (i : option TimerId) (m : Model) :
  completions (updateProgress i m) = completions m /\
  completions (completeSubscribe i m) = S (completions m) /\
  completions (handleGoBack i m) = completions m /\
  completions (handleClose m) = completions m.
Proof.
  assert (Hclear : forall j m', completions (clearInterval j m') = completions m').
  { intros j m'. unfold completions.
    now destruct (clearInterval_fields j m') as (_ & _ & _ & _ & _ & ->). }
  repeat split.
  - unfold updateProgress.
    destruct (MAX_FAKE_PROGRESS <=? progress (enter CallUpdateProgress m))%Z.
    + rewrite Hclear, completions_enter. simpl. lia.
    + change (completions (enter CallUpdateProgress m) = completions m).
      rewrite completions_enter. simpl. lia.
  - unfold completeSubscribe.
    change (completions (clearInterval i (enter CallCompleteSubscribe m)) =
            S (completions m)).
    rewrite Hclear, completions_enter. simpl. lia.
  - unfold handleGoBack.
    change (completions (clearInterval i (enter CallHandleGoBack m)) =
            completions m).
    rewrite Hclear, completions_enter. simpl. lia.
  - unfold handleClose.
    change (completions (enter CallHandleClose m) = completions m).
    rewrite completions_enter. simpl. lia.
Qed.

(** One turn of the event loop runs [completeSubscribe] at most once, and
    not at all once it has run. *)
Lemma step_completions (p : Props) (t0 : Z) (w w' : World) (e : Event) :
  Inv t0 w -> step p w e = Some w' ->
  completions (model w') <= S (completions (model w)) /\
  (completed (model w) = true ->
   completions (model w') = completions (model w)).
Proof.
  intros Hinv Hstep. unfold step in Hstep.
  destruct (Z.ltb_spec (at_ e) (now w)) as [|Hle]; [discriminate|].
  destruct (what e) as [| |v| | |].
  - destruct (interval (model w)); [|discriminate].
    injection Hstep as <-. cbn [model].
    destruct (handlers_completions mountIntervalId (model w)) as (-> & _).
    split; [lia|reflexivity].
  - destruct (pending w) as [[start|start]|]; try discriminate.
    simpl in Hstep. injection Hstep as <-. cbn [model].
    change (completions (handleSubscribe_request p (model w)))
      with (completions (model w)).
    split; [lia|reflexivity].
  - destruct (pending w) as [[start|start]|] eqn:Hp; try discriminate.
    injection Hstep as <-. cbn [model].
    destruct (inv_pending _ _ Hinv _ Hp) as (_ & _ & Hd & _).
    rewrite Hd.
    destruct (handleSubscribe_resolved_cases mountIntervalId start (at_ e) v (model w))
      as [(_ & ->)|[(_ & _ & ->)|(_ & _ & ->)]].
    + change (completions (setProcessingState FAILED (setError true (model w))))
        with (completions (model w)). split; [lia|discriminate].
    + split; [|discriminate].
      match goal with |- completions ?m' <= _ =>
        change (completions m') with (completions (model w)) end. lia.
    + destruct (handlers_completions mountIntervalId (model w)) as (_ & -> & _).
      split; [lia|discriminate].
  - destruct (completion (model w)) as [tm|] eqn:Hc; [|discriminate].
    destruct (Z.leb_spec (setAt tm + delay tm) (at_ e)); [|discriminate].
    injection Hstep as <-. cbn [model].
    destruct (inv_timeout _ _ Hinv _ Hc) as (_ & Hd). rewrite Hd.
    destruct (handlers_completions mountIntervalId (set_completion None (model w)))
      as (_ & -> & _).
    change (completions (set_completion None (model w)))
      with (completions (model w)).
    split; [lia|discriminate].
  - destruct (processingState (model w)); try discriminate.
    injection Hstep as <-. cbn [model].
    destruct (handlers_completions renderIntervalId (model w)) as (_ & _ & -> & _).
    split; [lia|reflexivity].
  - injection Hstep as <-. cbn [model].
    destruct (handlers_completions None (model w)) as (_ & _ & _ & ->).
    split; [lia|reflexivity].
Qed.

Lemma run_completions (p : Props) (t0 : Z) (evs : list Event) (w w' : World) :
  Inv t0 w -> run p w evs = Some w' ->
  completions (model w) <= 1 -> completions (model w') <= 1.
Proof.
  revert w. induction evs as [|e evs IH]; intros w Hinv Hrun Hle;
    simpl in Hrun.
  - now injection Hrun as <-.
  - destruct (step p w e) as [w1|] eqn:Hstep; [|discriminate].
    apply (IH w1 (step_inv p t0 w w1 e Hinv Hstep) Hrun).
    destruct (step_completions p t0 w w1 e Hinv Hstep) as [Hone Hsame].
    destruct (completions_completed (model w)) as [Hzero _].
    destruct (completed (model w)); [rewrite Hsame by reflexivity; lia|].
    rewrite Hzero in Hone by reflexivity. exact Hone.
Qed.

Lemma run_completed (p : Props) (t0 : Z) (evs : list Event) (w w' : World) :
  Inv t0 w -> run p w evs = Some w' ->
  completed (model w) = true -> completed (model w') = true.
Proof.
  revert w. induction evs as [|e evs IH]; intros w Hinv Hrun Hd;
    simpl in Hrun.
  - now injection Hrun as <-.
  - destruct (step p w e) as [w1|] eqn:Hstep; [|discriminate].
    apply (IH w1 (step_inv p t0 w w1 e Hinv Hstep) Hrun).
    destruct (step_completions p t0 w w1 e Hinv Hstep) as [_ Hsame].
    destruct (completions_completed (model w)) as [_ Hpos].
    destruct (completions_completed (model w1)) as [Hzero _].
    destruct (completed (model w1)); [reflexivity|].
    specialize (Hsame Hd). specialize (Hpos Hd).
    rewrite Hzero in Hsame by reflexivity. lia.
Qed.

(** X3. Success is final: in every run, go-backs included,
    [completeSubscribe] runs at most once, and once the state is
    [SUCCESS] nothing that can happen changes it: the state stays
    [SUCCESS], the counter stays 100 and the error flag stays unset. *)
Theorem success_is_final (p : Props) (t0 : Z) (evs1 evs2 : list Event)
    (w1 w2 : World) :
  run p (mount p t0) evs1 = Some w1 ->
  run p w1 evs2 = Some w2 ->
  completions (model w2) <= 1 /\
  (processingState (model w1) = SUCCESS ->
   processingState (model w2) = SUCCESS /\
   progress (model w2) = 100%Z /\
   error (model w2) = false /\
   completions (model w2) = 1).
Proof.
  intros Hrun1 Hrun2.
  pose proof (run_inv p t0 evs1 _ _ (mount_inv p t0) Hrun1) as Hinv1.
  pose proof (run_inv p t0 evs2 _ _ Hinv1 Hrun2) as Hinv2.
  assert (Hle : completions (model w2) <= 1).
  { apply (run_completions p t0 (evs1 ++ evs2) (mount p t0) w2 (mount_inv p t0)).
    - now rewrite run_app, Hrun1.
    - destruct (mount_fields p t0) as (_ & _ & _ & _ & _ & _ & Hd).
      destruct (completions_completed (model (mount p t0))) as [-> _];
        [lia|exact Hd]. }
  split; [exact Hle|]. intros Hs.
  assert (Hd1 : completed (model w1) = true).
  { destruct (completed (model w1)) eqn:Hd; [reflexivity|].
    destruct (inv_before _ _ Hinv1 Hd) as [_ Hns]. contradiction. }
  pose proof (run_completed p t0 evs2 w1 w2 Hinv1 Hrun2 Hd1) as Hd2.
  destruct (inv_after _ _ Hinv2 Hd2) as (H100 & Hs2 & _).
  split; [exact Hs2|]. split; [exact H100|].
  destruct (completions_completed (model w2)) as [_ Hpos].
  split; [|specialize (Hpos Hd2); lia].
  destruct (mount_fields p t0) as (_ & _ & _ & He0 & Hs0 & Hc0 & _).
  assert (Hf0 : error (model (mount p t0)) = true <->
                processingState (model (mount p t0)) = FAILED).
  { rewrite He0, Hs0. split; discriminate. }
  assert (Hsch0 : completion (model (mount p t0)) <> None ->
                  error (model (mount p t0)) = false /\
                  processingState (model (mount p t0)) = PROCESSING).
  { rewrite Hc0. congruence. }
  assert (Hrun : run p (mount p t0) (evs1 ++ evs2) = Some w2).
  { now rewrite run_app, Hrun1. }
  destruct (run_flags p t0 _ _ w2 (mount_inv p t0) Hf0 Hsch0 Hrun)
    as [[Hflag _] _].
  destruct (error (model w2)); [|reflexivity].
  rewrite Hs2 in Hflag. discriminate (Hflag eq_refl).
Qed.

Lemma success_is_final_witness :
  let p := mkProps None (Some "professional") in
  let evs1 := [mkEvent 9500 (Resolved (JBoolean true))] in
  let evs2 := [mkEvent 9600 Close; mkEvent 9700 Close] in
  exists w1 w2,
    run p (mount p 1000) evs1 = Some w1 /\
    run p w1 evs2 = Some w2 /\
    processingState (model w2) = SUCCESS /\
    completions (model w2) = 1.
Proof.
  intros p evs1 evs2. eexists. eexists.
  split; [vm_compute; reflexivity|].
  split; [vm_compute; reflexivity|].
  pose proof (success_is_final p 1000 evs1 evs2 _ _ eq_refl eq_refl)
    as [_ Hfinal].
  destruct (Hfinal eq_refl) as (Hs & _ & _ & Hone).
  split; [exact Hs|exact Hone].
Defined.

(** Handlers only add to the issued actions; what each adds. *)
Lemma step_issued (p : Props) (w w' : World) (e : Event) :
  step p w e = Some w' ->
  exists extra,
    issued (model w') = issued (model w) ++ extra /\
    match what e with
    | Archived =>
        List.filter is_subscribe extra =
          [SubscribeCloudSubscription (selectedProduct p)] /\
        (exists start, pending w = Some (AwaitArchive start)) /\
        (exists start, pending w' = Some (AwaitSubscribe start))
    | Resolved _ =>
        List.filter is_subscribe extra = [] /\
        (exists start, pending w = Some (AwaitSubscribe start)) /\
        pending w' = None
    | _ => List.filter is_subscribe extra = [] /\ pending w' = pending w
    end.
Proof.
  intros Hstep. unfold step in Hstep.
  destruct (Z.ltb_spec (at_ e) (now w)) as [|Hle]; [discriminate|].
  destruct (what e) as [| |v| | |].
  - destruct (interval (model w)); [|discriminate].
    injection Hstep as <-. cbn [model pending]. exists [].
    destruct (updateProgress_fields mountIntervalId (model w))
      as (_ & _ & _ & -> & _). rewrite app_nil_r. auto.
  - destruct (pending w) as [[start|start]|]; try discriminate.
    simpl in Hstep. injection Hstep as <-. cbn [model pending].
    exists [SubscribeCloudSubscription (selectedProduct p)].
    repeat split; eauto.
  - destruct (pending w) as [[start|start]|] eqn:Hp; try discriminate.
    injection Hstep as <-. cbn [model pending]. exists [].
    rewrite app_nil_r. split; [|repeat split; eauto].
    destruct (handleSubscribe_resolved_cases mountIntervalId start (at_ e) v (model w))
      as [(_ & ->)|[(_ & _ & ->)|(_ & _ & ->)]]; try reflexivity.
    now destruct (completeSubscribe_fields mountIntervalId (model w))
      as (_ & _ & _ & _ & -> & _).
  - destruct (completion (model w)) as [tm|]; [|discriminate].
    destruct (Z.leb_spec (setAt tm + delay tm) (at_ e)); [|discriminate].
    injection Hstep as <-. cbn [model pending]. exists [].
    rewrite app_nil_r. split; [|auto].
    now destruct (completeSubscribe_fields mountIntervalId (set_completion None (model w)))
      as (_ & _ & _ & _ & -> & _).
  - destruct (processingState (model w)); try discriminate.
    injection Hstep as <-. cbn [model pending]. exists [OnBack].
    destruct (handleGoBack_fields renderIntervalId (model w))
      as (_ & _ & _ & _ & -> & _). auto.
  - injection Hstep as <-. cbn [model pending]. exists [CloseModal; OnClose].
    unfold handleClose, dispatch. cbn [issued enter].
    rewrite <- app_assoc. auto.
Qed.

(** X4. The subscription request is issued exactly once per mount, with
    the selected product: not before the team archival has resolved when
    there is a team to keep, and never again afterwards, whatever happens
    (go-back and close included). With a team to keep, the first actions
    issued are the team selection and then the archival. *)
Theorem request_issued_once (p : Props) (t0 : Z) (evs : list Event)
    (w : World) :
  run p (mount p t0) evs = Some w ->
  requests_issued (model w) =
    match pending w with
    | Some (AwaitArchive _) => []
    | _ => [SubscribeCloudSubscription (selectedProduct p)]
    end /\
  (forall team, teamToKeep p = Some team ->
     exists rest,
       issued (model w) =
       SelectTeam team :: ArchiveAllTeamsExcept team :: rest).
Proof.
  intros Hrun.
  assert (Hgen : forall evs w0 w1,
    run p w0 evs = Some w1 ->
    requests_issued (model w0) =
      match pending w0 with
      | Some (AwaitArchive _) => []
      | _ => [SubscribeCloudSubscription (selectedProduct p)]
      end ->
    requests_issued (model w1) =
      match pending w1 with
      | Some (AwaitArchive _) => []
      | _ => [SubscribeCloudSubscription (selectedProduct p)]
      end /\
    exists rest, issued (model w1) = issued (model w0) ++ rest).
  { clear. induction evs as [|e evs IH]; intros w0 w1 Hrun Hreq;
      simpl in Hrun.
    - injection Hrun as <-. split; [exact Hreq|].
      exists []. now rewrite app_nil_r.
    - destruct (step p w0 e) as [w'|] eqn:Hstep; [|discriminate].
      destruct (step_issued p w0 w' e Hstep) as (extra & Hiss & Hwhat).
      assert (Hreq' : requests_issued (model w') =
        match pending w' with
        | Some (AwaitArchive _) => []
        | _ => [SubscribeCloudSubscription (selectedProduct p)]
        end).
      { unfold requests_issued in *. rewrite Hiss, List.filter_app, Hreq.
        destruct (what e);
          try (destruct Hwhat as [-> ->]; now rewrite app_nil_r).
        - destruct Hwhat as (-> & [s ->] & [s' ->]). reflexivity.
        - destruct Hwhat as (-> & [s ->] & ->). reflexivity. }
      destruct (IH w' w1 Hrun Hreq') as [Hfinal [rest Hrest]].
      split; [exact Hfinal|].
      exists (extra ++ rest). now rewrite Hrest, Hiss, app_assoc. }
  assert (Hreq0 : requests_issued (model (mount p t0)) =
    match pending (mount p t0) with
    | Some (AwaitArchive _) => []
    | _ => [SubscribeCloudSubscription (selectedProduct p)]
    end).
  { unfold mount, handleSubscribe, handleSubscribe_request.
    destruct (teamToKeep p); reflexivity. }
  destruct (Hgen evs _ _ Hrun Hreq0) as [Hfinal [rest Hrest]].
  split; [exact Hfinal|].
  intros team Hteam. exists rest. rewrite Hrest.
  unfold mount, handleSubscribe. rewrite Hteam. reflexivity.
Qed.

Lemma request_issued_once_witness :
  let p := mkProps (Some "team") (Some "professional") in
  let evs := [mkEvent 1500 Archived; mkEvent 2000 (Resolved JUndefined);
              mkEvent 3000 GoBack; mkEvent 3100 Close] in
  exists w, run p (mount p 1000) evs = Some w /\
    requests_issued (model w) =
      [SubscribeCloudSubscription (Some "professional")] /\
    length (issued (model w)) = 6.
Proof.
  intros p evs. eexists. split; [vm_compute; reflexivity|].
  split; [|reflexivity].
  exact (proj1 (request_issued_once p 1000 evs _ eq_refl)).
Defined.

Lemma handlers_interval (i : option TimerId) (m : Model) :
  interval (completeSubscribe i m) = interval (clearInterval i m) /\
  interval (handleGoBack i m) = interval (clearInterval i m) /\
  interval (handleClose m) = interval m.
Proof.
  destruct m as [pr er st iv cp ac cs].
  unfold completeSubscribe, handleGoBack, handleClose, clearInterval. cbn.
  destruct i as [i|], iv as [j|]; try (repeat split; reflexivity).
  destruct (Nat.eqb i j); repeat split; reflexivity.
Qed.

Lemma clearInterval_mount (m : Model) :
  interval m = None \/ interval m = mountIntervalId ->
  interval (clearInterval mountIntervalId m) = None.
Proof.
  unfold clearInterval, mountIntervalId.
  intros [H|H]; rewrite H; [exact H|reflexivity].
Qed.

(** The interval is the one of the mount effect or none, and none once
    [completeSubscribe] has run. *)
Lemma step_ticker (p : Props) (t0 : Z) (w w' : World) (e : Event) :
  Inv t0 w ->
  (interval (model w) = None \/ interval (model w) = mountIntervalId) ->
  (completed (model w) = true -> interval (model w) = None) ->
  step p w e = Some w' ->
  (interval (model w') = None \/ interval (model w') = mountIntervalId) /\
  (completed (model w') = true -> interval (model w') = None) /\
  (is_go_back e = false ->
   (completed (model w) = false ->
    (progress (model w) < MAX_FAKE_PROGRESS)%Z ->
    interval (model w) = mountIntervalId) ->
   completed (model w') = false ->
   (progress (model w') < MAX_FAKE_PROGRESS)%Z ->
   interval (model w') = mountIntervalId).
Proof.
  intros Hinv Hone Hdone Hstep. unfold step in Hstep.
  destruct (Z.ltb_spec (at_ e) (now w)) as [|Hle]; [discriminate|].
  unfold is_go_back.
  destruct (what e) as [| |v| | |].
  - destruct (interval (model w)) eqn:Hi; [|discriminate].
    injection Hstep as <-. cbn [model].
    destruct (updateProgress_fields mountIntervalId (model w))
      as (_ & _ & _ & _ & -> & Hmono & _).
    rewrite updateProgress_interval.
    destruct (Z.leb_spec MAX_FAKE_PROGRESS (progress (model w))) as [Hge|Hlt].
    + rewrite clearInterval_mount by (rewrite Hi; exact Hone).
      split; [auto|]. split; [auto|]. intros _ _ _ Hlt. lia.
    + rewrite Hi. split; [exact Hone|]. split; [exact Hdone|]. auto.
  - destruct (pending w) as [[start|start]|]; try discriminate.
    simpl in Hstep. injection Hstep as <-. cbn [model].
    split; [exact Hone|]. split; [exact Hdone|]. auto.
  - destruct (pending w) as [[start|start]|] eqn:Hp; try discriminate.
    injection Hstep as <-. cbn [model].
    destruct (handleSubscribe_resolved_cases mountIntervalId start (at_ e) v (model w))
      as [(_ & ->)|[(_ & _ & ->)|(_ & _ & ->)]].
    + split; [exact Hone|]. split; [exact Hdone|]. auto.
    + split; [exact Hone|]. split; [exact Hdone|]. auto.
    + destruct (handlers_interval mountIntervalId (model w)) as (-> & _).
      destruct (completeSubscribe_fields mountIntervalId (model w))
        as (_ & _ & _ & _ & _ & ->).
      rewrite clearInterval_mount by exact Hone.
      split; [auto|]. split; [auto|]. discriminate.
  - destruct (completion (model w)) as [tm|]; [|discriminate].
    destruct (Z.leb_spec (setAt tm + delay tm) (at_ e)); [|discriminate].
    injection Hstep as <-. cbn [model].
    destruct (handlers_interval mountIntervalId (set_completion None (model w)))
      as (-> & _).
    destruct (completeSubscribe_fields mountIntervalId (set_completion None (model w)))
      as (_ & _ & _ & _ & _ & ->).
    rewrite clearInterval_mount by exact Hone.
    split; [auto|]. split; [auto|]. discriminate.
  - destruct (processingState (model w)); try discriminate.
    injection Hstep as <-. cbn [model].
    destruct (handlers_interval renderIntervalId (model w)) as (_ & -> & _).
    destruct (handleGoBack_fields renderIntervalId (model w))
      as (_ & _ & _ & _ & _ & _ & ->).
    split; [exact Hone|]. split; [exact Hdone|]. discriminate.
  - injection Hstep as <-. cbn [model].
    destruct (handlers_interval None (model w)) as (_ & _ & ->).
    destruct (handleClose_fields (model w)) as (-> & _ & _ & _ & ->).
    split; [exact Hone|]. split; [exact Hdone|]. auto.
Qed.

Lemma run_ticker (p : Props) (t0 : Z) (evs : list Event) (w w' : World) :
  Inv t0 w ->
  (interval (model w) = None \/ interval (model w) = mountIntervalId) ->
  (completed (model w) = true -> interval (model w) = None) ->
  run p w evs = Some w' ->
  (completed (model w') = true -> interval (model w') = None) /\
  (no_go_back evs = true ->
   (completed (model w) = false ->
    (progress (model w) < MAX_FAKE_PROGRESS)%Z ->
    interval (model w) = mountIntervalId) ->
   completed (model w') = false ->
   (progress (model w') < MAX_FAKE_PROGRESS)%Z ->
   interval (model w') = mountIntervalId).
Proof.
  revert w. induction evs as [|e evs IH]; intros w Hinv Hone Hdone Hrun;
    simpl in Hrun.
  - injection Hrun as <-. split; [exact Hdone|auto].
  - destruct (step p w e) as [w1|] eqn:Hstep; [|discriminate].
    destruct (step_ticker p t0 w w1 e Hinv Hone Hdone Hstep)
      as (Hone1 & Hdone1 & Hrunning1).
    destruct (IH w1 (step_inv p t0 w w1 e Hinv Hstep) Hone1 Hdone1 Hrun)
      as [Hfinal Hrunning].
    split; [exact Hfinal|].
    intros Hgb Hw. simpl in Hgb. apply andb_true_iff in Hgb as [He Hevs].
    apply negb_true_iff in He. apply (Hrunning Hevs). auto.
Qed.

(** X5. The ticker stops when the attempt completes and at no other
    outcome: once [completeSubscribe] has run no interval is registered and
    no tick can happen; and in a run without go-back, as long as the
    counter is below 95 and [completeSubscribe] has not run, the interval
    is still running and a tick can happen, also after the request has
    failed. *)
Theorem ticker_runs_until_completion (p : Props) (t0 : Z)
    (evs : list Event) (w : World) :
  run p (mount p t0) evs = Some w ->
  (completed (model w) = true ->
   interval (model w) = None /\
   forall t, step p w (mkEvent t Tick) = None) /\
  (no_go_back evs = true ->
   completed (model w) = false ->
   (progress (model w) < MAX_FAKE_PROGRESS)%Z ->
   interval (model w) = mountIntervalId /\
   forall t, (now w <= t)%Z -> step p w (mkEvent t Tick) <> None).
Proof.
  intros Hrun.
  assert (Hi0 : interval (model (mount p t0)) = mountIntervalId).
  { unfold mount, handleSubscribe, handleSubscribe_request.
    destruct (teamToKeep p); reflexivity. }
  destruct (mount_fields p t0) as (_ & _ & _ & _ & _ & _ & Hd0).
  destruct (run_ticker p t0 evs _ w (mount_inv p t0)) as [Hdone Hrunning];
    [right; exact Hi0|rewrite Hd0; discriminate|exact Hrun|].
  split.
  - intros Hd. specialize (Hdone Hd). split; [exact Hdone|].
    intros t. unfold step. cbn [at_ what]. rewrite Hdone.
    destruct (t <? now w)%Z; reflexivity.
  - intros Hgb Hd Hlt.
    assert (Hi : interval (model w) = mountIntervalId).
    { apply Hrunning; auto. }
    split; [exact Hi|]. intros t Ht. unfold step. cbn [at_ what].
    rewrite Hi. destruct (Z.ltb_spec t (now w)); [lia|discriminate].
Qed.

Lemma ticker_runs_until_completion_witness :
  let p := mkProps None (Some "professional") in
  let evs := [mkEvent 1084 Tick; mkEvent 2000 (Resolved (JString "declined"))] in
  exists w, run p (mount p 1000) evs = Some w /\
    processingState (model w) = FAILED /\
    interval (model w) = Some 1.
Proof.
  intros p evs. eexists. split; [vm_compute; reflexivity|].
  split; [reflexivity|].
  refine (proj1 (proj2 (ticker_runs_until_completion p 1000 evs _ eq_refl)
                   _ _ _)); vm_compute; reflexivity.
Defined.

(** What a handler leaves visible depends on what was visible only. *)
Lemma handlers_visible (i : option TimerId) (start t : Z) (v : JSValue)
    (p : Props) (m m' : Model) :
  visible m = visible m' ->
  visible (updateProgress i m) = visible (updateProgress i m') /\
  visible (completeSubscribe i (set_completion None m)) =
    visible (completeSubscribe i (set_completion None m')) /\
  visible (handleGoBack i m) = visible (handleGoBack i m') /\
  visible (handleClose m) = visible m /\
  visible (handleSubscribe_request p m) = visible m /\
  visible (handleSubscribe_resolved i start t v m) =
    visible (handleSubscribe_resolved i start t v m').
Proof.
  destruct m as [pr er st iv cp ac cs], m' as [pr' er' st' iv' cp' ac' cs'].
  unfold visible. cbn. intros [= -> -> -> -> ->].
  unfold updateProgress, completeSubscribe, handleGoBack, handleClose,
    handleSubscribe_request, handleSubscribe_resolved, clearInterval. cbn.
  repeat split.
  - destruct (MAX_FAKE_PROGRESS <=? pr')%Z; [|reflexivity].
    destruct i as [i|], iv' as [j|]; try reflexivity.
    destruct (Nat.eqb i j); reflexivity.
  - destruct i as [i|], iv' as [j|]; try reflexivity.
    destruct (Nat.eqb i j); reflexivity.
  - destruct i as [i|], iv' as [j|]; try reflexivity.
    destruct (Nat.eqb i j); reflexivity.
  - destruct (negb (is_boolean v)); [reflexivity|].
    destruct (t - start <? MIN_PROCESSING_MILLISECONDS)%Z; [reflexivity|].
    unfold completeSubscribe, clearInterval. cbn.
    destruct i as [i|], iv' as [j|]; try reflexivity.
    destruct (Nat.eqb i j); reflexivity.
Qed.

Lemma visible_fields (m m' : Model) :
  visible m = visible m' ->
  interval m = interval m' /\ completion m = completion m' /\
  processingState m = processingState m'.
Proof. unfold visible. intros [= _ _ -> -> ->]. auto. Qed.

(** A world that differs only in its logs, and whose clock is not ahead,
    can do whatever the other can, closing apart. *)
Lemma step_without_close (p : Props) (w1 w1' w2 : World) (e : Event) :
  visible (model w1) = visible (model w1') ->
  pending w1 = pending w1' ->
  (now w1' <= now w1)%Z ->
  step p w1 e = Some w2 ->
  exists w2',
    (if is_close e then w2' = w1' else step p w1' e = Some w2') /\
    visible (model w2) = visible (model w2') /\
    pending w2 = pending w2' /\
    (now w2' <= now w2)%Z.
Proof.
  intros Hvis Hpend Hnow Hstep. unfold step in *.
  destruct (Z.ltb_spec (at_ e) (now w1)) as [|Hle]; [discriminate|].
  destruct (Z.ltb_spec (at_ e) (now w1')) as [|_]; [lia|].
  destruct (visible_fields _ _ Hvis) as (Hi & Hc & Hs).
  destruct (handlers_visible mountIntervalId 0 0 JNull p _ _ Hvis)
    as (Htick & Hdone & _ & Hclose & Hreq & _).
  destruct (handlers_visible renderIntervalId 0 0 JNull p _ _ Hvis)
    as (_ & _ & Hback & _).
  unfold is_close. rewrite <- Hpend, <- Hi, <- Hc, <- Hs.
  destruct (what e) as [| |v| | |].
  - destruct (interval (model w1)); [|discriminate].
    injection Hstep as <-. eexists. split; [reflexivity|].
    cbn [model pending now]. repeat split; [exact Htick|lia].
  - destruct (pending w1) as [[start|start]|]; try discriminate.
    simpl in Hstep. injection Hstep as <-. eexists.
    split; [reflexivity|]. cbn [model pending now].
    repeat split; [|lia].
    destruct (handlers_visible None 0 0 JNull p _ _ (eq_sym Hvis))
      as (_ & _ & _ & _ & Hreq' & _).
    now rewrite Hreq, Hreq'.
  - destruct (pending w1) as [[start|start]|]; try discriminate.
    injection Hstep as <-. eexists. split; [reflexivity|].
    cbn [model pending now]. repeat split; [|lia].
    apply (handlers_visible mountIntervalId start (at_ e) v p _ _ Hvis).
  - destruct (completion (model w1)) as [tm|]; [|discriminate].
    destruct (setAt tm + delay tm <=? at_ e)%Z; [|discriminate].
    injection Hstep as <-. eexists. split; [reflexivity|].
    cbn [model pending now]. repeat split; [exact Hdone|lia].
  - destruct (processingState (model w1)); try discriminate.
    injection Hstep as <-. eexists. split; [reflexivity|].
    cbn [model pending now]. repeat split; [exact Hback|lia].
  - injection Hstep as <-. exists w1'. split; [reflexivity|].
    cbn [model pending now]. repeat split; [|assumption|lia].
    now rewrite Hclose.
Qed.

(** X6. Closing the modal changes nothing but the log: it neither stops
    the ticker nor cancels the scheduled completion nor touches the state.
    Whatever a run reaches, the same run with its closings left out
    reaches too, with the same counter, error flag, state, interval,
    scheduled completion and pending request. *)
Theorem close_changes_nothing (p : Props) (t0 : Z) (evs : list Event)
    (w : World) :
  run p (mount p t0) evs = Some w ->
  exists w',
    run p (mount p t0) (without_close evs) = Some w' /\
    observe w' = observe w.
Proof.
  assert (Hgen : forall evs w1 w1' w2,
    visible (model w1) = visible (model w1') ->
    pending w1 = pending w1' ->
    (now w1' <= now w1)%Z ->
    run p w1 evs = Some w2 ->
    exists w2', run p w1' (without_close evs) = Some w2' /\
      visible (model w2) = visible (model w2') /\ pending w2 = pending w2').
  { clear. induction evs as [|e evs IH]; intros w1 w1' w2 Hvis Hpend Hnow Hrun;
      simpl in Hrun.
    - injection Hrun as <-. exists w1'. simpl. auto.
    - destruct (step p w1 e) as [wm|] eqn:Hstep; [|discriminate].
      destruct (step_without_close p w1 w1' wm e Hvis Hpend Hnow Hstep)
        as (wm' & Hstep' & Hvis' & Hpend' & Hnow').
      destruct (IH wm wm' w2 Hvis' Hpend' Hnow' Hrun) as (w2' & Hrun' & Hfinal).
      exists w2'. split; [|exact Hfinal].
      unfold without_close in *. simpl.
      destruct (is_close e); simpl.
      + now subst wm'.
      + now rewrite Hstep'. }
  intros Hrun.
  destruct (Hgen evs _ (mount p t0) w eq_refl eq_refl ltac:(lia) Hrun)
    as (w' & Hrun' & Hvis & Hpend).
  exists w'. split; [exact Hrun'|].
  unfold observe. unfold visible in Hvis.
  injection Hvis as -> -> -> -> ->. now rewrite Hpend.
Qed.

Lemma close_changes_nothing_witness :
  let p := mkProps None (Some "professional") in
  let evs := [mkEvent 1084 Tick; mkEvent 1100 Close;
              mkEvent 2000 (Resolved (JBoolean true)); mkEvent 2500 Close;
              mkEvent 9000 TimeoutFires] in
  exists w w',
    run p (mount p 1000) evs = Some w /\
    run p (mount p 1000) (without_close evs) = Some w' /\
    processingState (model w) = SUCCESS /\
    observe w' = observe w.
Proof.
  intros p evs.
  destruct (close_changes_nothing p 1000 evs _ eq_refl) as (w' & Hrun & Hobs).
  eexists. exists w'.
  split; [vm_compute; reflexivity|].
  split; [exact Hrun|]. split; [reflexivity|exact Hobs].
Defined.

(** X7. The progress bar is rendered on the processing page only, and in
    every world a mounted component can reach (go-backs included) the
    counter it shows lies between 0 and the soft maximum 95: the value 100
    that completion forces is never shown by the bar. *)
Theorem progress_bar_below_maximum (p : Props) (t0 : Z) (evs : list Event)
    (w : World) (shown : string) :
  run p (mount p t0) evs = Some w ->
  footer (modalContent (model w)) = Some shown ->
  processingState (model w) = PROCESSING /\
  shown = progressBar (model w) /\
  (0 <= progress (model w) <= MAX_FAKE_PROGRESS)%Z.
Proof.
  intros Hrun Hfooter.
  pose proof (run_inv p t0 evs _ _ (mount_inv p t0) Hrun) as Hinv.
  unfold modalContent, sucessPage in Hfooter.
  destruct (processingState (model w)) eqn:Hs; try discriminate.
  injection Hfooter as <-. split; [reflexivity|]. split; [reflexivity|].
  destruct (completed (model w)) eqn:Hd.
  - destruct (inv_after _ _ Hinv Hd) as (_ & Hs' & _). congruence.
  - apply (inv_before _ _ Hinv Hd).
Qed.

Lemma progress_bar_below_maximum_witness :
  let p := mkProps None (Some "professional") in
  let evs := [mkEvent 1084 Tick; mkEvent 1168 Tick] in
  exists w, run p (mount p 1000) evs = Some w /\
    footer (modalContent (model w)) = Some "6%" /\
    (0 <= progress (model w) <= MAX_FAKE_PROGRESS)%Z.
Proof.
  intros p evs. eexists. split; [vm_compute; reflexivity|].
  split; [reflexivity|].
  exact (proj2 (proj2 (progress_bar_below_maximum p 1000 evs _ "6%"
                         eq_refl eq_refl))).
Defined.

End CloudSubscribeFacts.

(** * Properties of the pricing post renderer *)

Module PricingPostFacts.

Import PricingPost.

(** The helpers on the strings the renderer builds. *)
Example join_three : join ", " ["@a"; "@b"; "and @c"] = "@a, @b, and @c".
Proof. reflexivity. Qed.

Example replace_three :
  replace_last_comma "@a, @b, and @c" = "@a, @b and @c".
Proof. reflexivity. Qed.

Example replace_none : replace_last_comma "and undefined" = "and undefined".
Proof. reflexivity. Qed.

Example title_id_dashes :
  replaceAll_space_dash "Custom User groups-title" = "Custom-User-groups-title".
Proof. reflexivity. Qed.

Lemma append_assoc (a b c : string) : (a +:+ b) +:+ c = a +:+ b +:+ c.
Proof.
  induction a as [|x a IH]; [reflexivity|].
  change (String x ((a +:+ b) +:+ c) = String x (a +:+ b +:+ c)).
  now f_equal.
Qed.

Lemma has_comma_append (a b : string) :
  has_comma (a +:+ b) = has_comma a || has_comma b.
Proof.
  induction a as [|x a IH]; [reflexivity|].
  change (Ascii.eqb x "," || has_comma (a +:+ b) =
          Ascii.eqb x "," || has_comma a || has_comma b).
  now rewrite IH, orb_assoc.
Qed.

(** The replacement drops the comma that has no comma after it. *)
Lemma replace_last_comma_append (a b : string) :
  has_comma b = false ->
  replace_last_comma (a +:+ String "," b) = a +:+ b.
Proof.
  intros Hb. induction a as [|x a IH].
  - simpl. now rewrite Hb.
  - change (replace_last_comma (String x (a +:+ String "," b)) =
            String x (a +:+ b)).
    cbn [replace_last_comma].
    rewrite has_comma_append. cbn [has_comma].
    change (Ascii.eqb "," ",") with true.
    rewrite orb_true_l, orb_true_r, andb_false_r.
    now rewrite IH.
Qed.

Lemma join_snoc (sep : string) (front : list string) (x : string) :
  front <> [] ->
  join sep (front ++ [x]) = join sep front +:+ sep +:+ x.
Proof.
  induction front as [|y front IH]; [congruence|]. intros _.
  destruct front as [|z front]; [reflexivity|].
  change (join sep ((y :: z :: front) ++ [x]))
    with (y +:+ sep +:+ join sep ((z :: front) ++ [x])).
  rewrite IH by discriminate.
  change (join sep (y :: z :: front))
    with (y +:+ sep +:+ join sep (z :: front)).
  now rewrite !append_assoc.
Qed.

Lemma push_all {A B : Type} (f : A -> B) (l : list A) (acc : list B) :
  fold_left (fun out x => out ++ [f x]) l acc = acc ++ map f l.
Proof.
  revert acc. induction l as [|x l IH]; intros acc; simpl.
  - now rewrite app_nil_r.
  - now rewrite IH, <- app_assoc.
Qed.

Lemma getUserIds_map (requests : list FeatureRequest) :
  getUserIdsForUsersThatRequestedFeature requests = map user_id requests.
Proof. unfold getUserIdsForUsersThatRequestedFeature. now rewrite push_all. Qed.

Lemma push_names (userProfiles : gmap string UserProfile)
    (userIds acc : list string) :
  fold_left
    (fun userNames userId =>
       let profile := get userProfiles userId in
       match profile with
       | Undefined => userNames ++ ["@unknown"]
       | _ => userNames ++ [concat_maybe "@" (username_of profile)]
       end) userIds acc =
  acc ++ map (fun userId =>
                let profile := get userProfiles userId in
                match profile with
                | Undefined => "@unknown"
                | _ => concat_maybe "@" (username_of profile)
                end) userIds.
Proof.
  revert acc. induction userIds as [|u l IH]; intros acc; simpl.
  - now rewrite app_nil_r.
  - rewrite IH. destruct (get userProfiles u); now rewrite <- app_assoc.
Qed.

Lemma getUserNames_map (userProfiles : gmap string UserProfile)
    (requests : list FeatureRequest) :
  getUserNamesForUsersThatRequestedFeature userProfiles requests =
  map (userLabel userProfiles) requests.
Proof.
  unfold getUserNamesForUsersThatRequestedFeature.
  rewrite getUserIds_map, push_names. simpl. now rewrite map_map.
Qed.

Lemma lookup_map {A B : Type} (f : A -> B) (l : list A) (k : nat) :
  map f l !! k = f <$> l !! k.
Proof.
  revert k. induction l as [|x l IH]; intros [|k]; simpl; try reflexivity.
  apply IH.
Qed.

Lemma render_one (userProfiles : gmap string UserProfile)
    (request : FeatureRequest) :
  renderUsersThatRequestedFeature userProfiles [request] =
  userLabel userProfiles request.
Proof.
  unfold renderUsersThatRequestedFeature. rewrite getUserNames_map. reflexivity.
Qed.

(** Fewer than five requesters, at least two: the names but the last,
    joined by commas, then the conjunction and the last name. *)
Lemma render_few (userProfiles : gmap string UserProfile)
    (front : list FeatureRequest) (lastRequest : FeatureRequest) :
  front <> [] -> length front < 4 ->
  has_comma (userLabel userProfiles lastRequest) = false ->
  renderUsersThatRequestedFeature userProfiles (front ++ [lastRequest]) =
  join ", " (map (userLabel userProfiles) front) +:+ " and " +:+
  userLabel userProfiles lastRequest.
Proof.
  intros Hne Hlen Hcomma.
  unfold renderUsersThatRequestedFeature.
  rewrite getUserNames_map, map_app. simpl map.
  rewrite !length_app, length_map. simpl length.
  destruct (Nat.leb_spec 5 (length front + 1)) as [|_]; [lia|].
  destruct (Nat.eqb_spec (length front + 1) 1) as [Hone|_].
  { destruct front; [congruence|simpl in Hone; lia]. }
  rewrite last_snoc, removelast_last.
  rewrite join_snoc by (destruct front; [congruence|discriminate]).
  set (lastUser := userLabel userProfiles lastRequest) in *.
  change (", " +:+ concat_maybe "and " (Some lastUser))
    with (String "," (" and " +:+ lastUser)).
  apply replace_last_comma_append. exact Hcomma.
Qed.

(** C7, as the code has it. Each requester of a feature gets one label,
    in order, and the lookup never fails. A user id with an entry of its
    own in the profile directory gives [@] followed by the profile's
    username. A user id without one gives the placeholder [@unknown],
    unless it names a property the directory inherits from
    [Object.prototype] ([constructor], [toString], ...): the lookup is then
    not [undefined] and the label is [@undefined]. A lone requester is
    displayed by that label. *)
Theorem requester_labels
    (userProfiles : gmap string UserProfile) (requests : list FeatureRequest)
    (k : nat) (request : FeatureRequest) :
  requests !! k = Some request ->
  let names := getUserNamesForUsersThatRequestedFeature userProfiles requests in
  length names = length requests /\
  (forall profile, userProfiles !! user_id request = Some profile ->
     names !! k = Some ("@" +:+ username profile)) /\
  (userProfiles !! user_id request = None ->
   inherited (user_id request) = false ->
   names !! k = Some "@unknown") /\
  (userProfiles !! user_id request = None ->
   inherited (user_id request) = true ->
   names !! k = Some "@undefined") /\
  renderUsersThatRequestedFeature userProfiles [request] =
    userLabel userProfiles request.
Proof.
  intros Hk names. subst names. rewrite getUserNames_map.
  split; [apply length_map|].
  rewrite lookup_map, Hk. simpl. unfold userLabel, get.
  split; [intros profile ->; reflexivity|].
  split; [intros -> ->; reflexivity|].
  split; [intros -> ->; reflexivity|].
  apply render_one.
Qed.

Lemma requester_labels_witness :
  let userProfiles : gmap string UserProfile :=
    <["u1" := mkUserProfile "alice"]> ∅ in
  let request u :=
    mkFeatureRequest "r" u "Guest Accounts" "Professional plan" "1" "false" in
  let requests := [request "u1"; request "u9"; request "constructor"] in
  getUserNamesForUsersThatRequestedFeature userProfiles requests !! 0
    = Some "@alice" /\
  getUserNamesForUsersThatRequestedFeature userProfiles requests !! 1
    = Some "@unknown" /\
  getUserNamesForUsersThatRequestedFeature userProfiles requests !! 2
    = Some "@undefined".
Proof.
  intros userProfiles request requests.
  pose proof (requester_labels userProfiles requests 0 (request "u1") eq_refl)
    as (_ & Hown & _).
  pose proof (requester_labels userProfiles requests 1 (request "u9") eq_refl)
    as (_ & _ & Hunknown & _).
  pose proof (requester_labels userProfiles requests 2 (request "constructor")
                eq_refl) as (_ & _ & _ & Hinherited & _).
  split; [exact (Hown (mkUserProfile "alice") eq_refl)|].
  split; [exact (Hunknown eq_refl eq_refl)|].
  exact (Hinherited eq_refl eq_refl).
Defined.

(** C5, as the code has it. For a non-empty list of requests the display
    collapses to a member count when there are five requesters or more;
    with fewer, a lone requester is shown by name and two to four are
    joined by commas with [and] before the last (the last name holding no
    comma). Six requesters give [6 members]; two give the two names joined
    by [and]. *)
Theorem requesters_display (userProfiles : gmap string UserProfile)
    (requests : list FeatureRequest) :
  requests <> [] ->
  let n := length requests in
  let shown := renderUsersThatRequestedFeature userProfiles requests in
  (5 <= n -> shown = string_of_nat n +:+ " members") /\
  (n = 6 -> shown = "6 members") /\
  (n < 5 -> exists front lastRequest,
     requests = front ++ [lastRequest] /\
     (front = [] -> shown = userLabel userProfiles lastRequest) /\
     (front <> [] ->
      has_comma (userLabel userProfiles lastRequest) = false ->
      shown = join ", " (map (userLabel userProfiles) front) +:+ " and " +:+
              userLabel userProfiles lastRequest)) /\
  (forall r1 r2, requests = [r1; r2] ->
     has_comma (userLabel userProfiles r2) = false ->
     shown = userLabel userProfiles r1 +:+ " and " +:+ userLabel userProfiles r2).
Proof.
  intros Hne n shown.
  assert (Hcount : 5 <= n -> shown = string_of_nat n +:+ " members").
  { intros Hn. subst shown n. unfold renderUsersThatRequestedFeature.
    destruct (Nat.leb_spec 5 (length requests)); [reflexivity|lia]. }
  split; [exact Hcount|].
  split.
  { intros H6. rewrite Hcount by lia. now rewrite H6. }
  split.
  - intros Hn.
    destruct (exists_last Hne) as (front & lastRequest & Heq).
    exists front, lastRequest. split; [exact Heq|].
    subst shown n. rewrite Heq in *. rewrite length_app in Hn. simpl in Hn.
    split.
    + intros ->. apply render_one.
    + intros Hfront Hcomma. apply render_few; [assumption|lia|assumption].
  - intros r1 r2 Heq Hcomma. subst shown. rewrite Heq.
    apply (render_few userProfiles [r1] r2); [discriminate|simpl; lia|assumption].
Qed.

Lemma requesters_display_witness :
  let userProfiles : gmap string UserProfile :=
    <["u1" := mkUserProfile "user1"]> (<["u2" := mkUserProfile "user2"]> ∅) in
  let request u :=
    mkFeatureRequest "r" u "Guest Accounts" "Professional plan" "1" "false" in
  renderUsersThatRequestedFeature userProfiles [request "u1"; request "u2"]
    = "@user1 and @user2" /\
  renderUsersThatRequestedFeature userProfiles
    [request "u1"; request "u2"; request "u1"; request "u2"; request "u1";
     request "u2"] = "6 members".
Proof.
  intros userProfiles request. split.
  - refine (proj2 (proj2 (proj2
      (requesters_display userProfiles [request "u1"; request "u2"] _)))
      (request "u1") (request "u2") _ _);
      [discriminate|reflexivity|vm_compute; reflexivity].
  - refine (proj1 (proj2
      (requesters_display userProfiles
         [request "u1"; request "u2"; request "u1"; request "u2";
          request "u1"; request "u2"] _)) _);
      [discriminate|reflexivity].
Defined.

(** C5 as stated fails at exactly five requesters: five is not above the
    threshold of five, yet the display is the member count and not the list
    of names. *)
Lemma five_requesters_collapse :
  let userProfiles : gmap string UserProfile := ∅ in
  let request u :=
    mkFeatureRequest "r" u "Guest Accounts" "Professional plan" "1" "false" in
  let requests :=
    [request "u1"; request "u2"; request "u3"; request "u4"; request "u5"] in
  length requests = 5 /\ ~ (5 < length requests) /\
  renderUsersThatRequestedFeature userProfiles requests = "5 members" /\
  renderUsersThatRequestedFeature userProfiles requests <>
    "@unknown, @unknown, @unknown, @unknown and @unknown".
Proof.
  intros userProfiles request requests.
  split; [reflexivity|]. split; [simpl; lia|].
  split; [vm_compute; reflexivity|vm_compute; discriminate].
Qed.

Section Plans.

Context {F : NonAdminPaidFeatures}.

(** [mapFeatureToPlan] clears the flag exactly when it answers with the
    Enterprise plan, whatever the flag was. *)
Lemma mapFeatureToPlan_flag (feature : string) (allProfessional : bool) :
  snd (mapFeatureToPlan feature allProfessional) =
  allProfessional && negb (needsEnterprise feature).
Proof.
  unfold needsEnterprise, mapFeatureToPlan.
  destruct (String.eqb feature GUEST_ACCOUNTS
            || String.eqb feature CREATE_MULTIPLE_TEAMS);
    [simpl; now rewrite andb_true_r|].
  destruct (String.eqb feature ALL_ENTERPRISE_FEATURES
            || String.eqb feature CUSTOM_USER_GROUPS); simpl.
  - now rewrite andb_false_r.
  - now rewrite andb_true_r.
Qed.

Lemma needsEnterprise_iff (feature : string) :
  needsEnterprise feature = true <->
  forall allProfessional,
    fst (mapFeatureToPlan feature allProfessional) =
    MinimumPlansForFeature.Enterprise.
Proof.
  unfold needsEnterprise, mapFeatureToPlan.
  destruct (String.eqb feature GUEST_ACCOUNTS
            || String.eqb feature CREATE_MULTIPLE_TEAMS);
    [simpl; split; [discriminate|intros H; discriminate (H true)]|].
  destruct (String.eqb feature ALL_ENTERPRISE_FEATURES
            || String.eqb feature CUSTOM_USER_GROUPS); simpl.
  - split; reflexivity.
  - split; [discriminate|intros H; discriminate (H true)].
Qed.

Lemma renderFeatures_fold (userProfiles : gmap string UserProfile)
    (requestFeatures : RequestedFeature) (body : list FeatureMessage)
    (flag : bool) :
  snd (fold_left
         (fun '(customMessageBody, allProfessional) '(featureName, requests) =>
            let '(msg, allProfessional) :=
              featureMessage userProfiles featureName requests allProfessional in
            (customMessageBody ++ [msg], allProfessional))
         requestFeatures (body, flag)) =
  flag && forallb (fun feature => negb (needsEnterprise feature))
                  (map fst requestFeatures).
Proof.
  revert body flag.
  induction requestFeatures as [|[featureName requests] rest IH];
    intros body flag; simpl.
  - now rewrite andb_true_r.
  - unfold featureMessage.
    pose proof (mapFeatureToPlan_flag featureName flag) as Hflag.
    destruct (mapFeatureToPlan featureName flag) as [plan flag'].
    simpl in Hflag. subst flag'. rewrite IH. now rewrite andb_assoc.
Qed.

Lemma renderFeatures_flag (userProfiles : gmap string UserProfile)
    (requestFeatures : RequestedFeature) :
  snd (renderFeatures userProfiles requestFeatures) =
  forallb (fun feature => negb (needsEnterprise feature))
          (map fst requestFeatures).
Proof. unfold renderFeatures. now rewrite renderFeatures_fold. Qed.

Lemma buttons_shown (userProfiles : gmap string UserProfile) (post : Post) :
  buttons (OpenPricingModalPost userProfiles post) =
  renderButtons (props_trial (props post))
    (forallb (fun feature => negb (needsEnterprise feature))
             (featureNames post)).
Proof.
  unfold OpenPricingModalPost, featureNames.
  destruct (requested_features (props post)) as [requestFeatures|];
    [|reflexivity].
  rewrite <- (renderFeatures_flag userProfiles).
  now destruct (renderFeatures userProfiles requestFeatures).
Qed.

Lemma some_feature_needs_enterprise (features : list string) :
  forallb (fun feature => negb (needsEnterprise feature)) features = false <->
  exists feature, In feature features /\
    forall allProfessional,
      fst (mapFeatureToPlan feature allProfessional) =
      MinimumPlansForFeature.Enterprise.
Proof.
  induction features as [|f features IH]; simpl.
  - split; [discriminate|intros (? & [] & _)].
  - rewrite andb_false_iff, IH, negb_false_iff, needsEnterprise_iff.
    split.
    + intros [Hf|(g & Hin & Hg)]; [exists f|exists g]; auto.
    + intros (g & [<-|Hin] & Hg); [left|right; exists g]; auto.
Qed.

(** C4. When the post's trial flag is set the trial-focused buttons are
    shown, whatever the features. Otherwise the lone [View upgrade options]
    button of the enterprise-only set is shown if and only if some
    requested feature maps to the Enterprise plan, and the
    professional-upgrade set is shown when none does. The three sets
    differ from one another. *)
Theorem button_set_selection (userProfiles : gmap string UserProfile)
    (post : Post) :
  let shown := buttons (OpenPricingModalPost userProfiles post) in
  let someEnterprise :=
    exists feature, In feature (featureNames post) /\
      forall allProfessional,
        fst (mapFeatureToPlan feature allProfessional) =
        MinimumPlansForFeature.Enterprise in
  (truthy (props_trial (props post)) = true -> shown = trialButtons) /\
  (truthy (props_trial (props post)) = false ->
   (shown = enterpriseButtons <-> someEnterprise) /\
   (~ someEnterprise -> shown = professionalButtons)) /\
  (shown = enterpriseButtons <->
   truthy (props_trial (props post)) = false /\ someEnterprise) /\
  map label enterpriseButtons = ["View upgrade options"] /\
  trialButtons <> enterpriseButtons /\
  professionalButtons <> enterpriseButtons /\
  trialButtons <> professionalButtons.
Proof.
  intros shown someEnterprise. subst shown someEnterprise.
  rewrite buttons_shown. unfold renderButtons.
  rewrite <- some_feature_needs_enterprise.
  destruct (truthy (props_trial (props post)));
    destruct (forallb _ (featureNames post));
    repeat split; try discriminate; try reflexivity; try tauto;
    try (intros [? ?]; discriminate); intros; congruence.
Qed.

(** C9. A feature name outside the lookup table gets the Professional
    plan and leaves the all-professional flag as it was; a post whose
    requested features are all outside the table is never shown the
    enterprise-only button set. *)
Theorem unknown_feature_is_professional (feature : string)
    (allProfessional : bool) :
  ~ inLookupTable feature ->
  mapFeatureToPlan feature allProfessional =
    (MinimumPlansForFeature.Professional, allProfessional) /\
  forall (userProfiles : gmap string UserProfile) (post : Post),
    (forall f, In f (featureNames post) -> ~ inLookupTable f) ->
    buttons (OpenPricingModalPost userProfiles post) <> enterpriseButtons.
Proof.
  assert (Hplan : forall f flag, ~ inLookupTable f ->
            mapFeatureToPlan f flag = (MinimumPlansForFeature.Professional, flag)).
  { intros f flag Hout. unfold inLookupTable in Hout. unfold mapFeatureToPlan.
    destruct (String.eqb_spec f GUEST_ACCOUNTS); [tauto|].
    destruct (String.eqb_spec f CREATE_MULTIPLE_TEAMS); [tauto|].
    destruct (String.eqb_spec f ALL_ENTERPRISE_FEATURES); [tauto|].
    destruct (String.eqb_spec f CUSTOM_USER_GROUPS); [tauto|]. reflexivity. }
  intros Hout. split; [apply Hplan; exact Hout|].
  intros userProfiles post Hall. rewrite buttons_shown.
  assert (Hflag : forallb (fun f => negb (needsEnterprise f))
                          (featureNames post) = true).
  { apply forallb_forall. intros f Hin. unfold needsEnterprise.
    rewrite (Hplan f true (Hall f Hin)). reflexivity. }
  rewrite Hflag. unfold renderButtons.
  destruct (truthy (props_trial (props post))); discriminate.
Qed.

End Plans.

Lemma button_set_selection_witness :
  let userProfiles : gmap string UserProfile := ∅ in
  let request :=
    mkFeatureRequest "r" "u1" "Custom User groups" "Enterprise plan" "1" "false" in
  let post trial := mkPost "post" "Features were requested"
    (mkCustomPostProps
       (Some [("Guest Accounts", [request]); ("Custom User groups", [request])])
       trial) in
  buttons (OpenPricingModalPost (F := webappFeatures) userProfiles (post None))
    = enterpriseButtons /\
  buttons (OpenPricingModalPost (F := webappFeatures) userProfiles
             (post (Some true)))
    = trialButtons.
Proof.
  intros userProfiles request post. split.
  - refine (proj2 (proj1 (proj1 (proj2
      (button_set_selection (F := webappFeatures) userProfiles (post None)))
      _)) _); [reflexivity|].
    exists "Custom User groups". split; [vm_compute; auto|reflexivity].
  - refine (proj1
      (button_set_selection (F := webappFeatures) userProfiles
         (post (Some true))) _). reflexivity.
Defined.

Lemma unknown_feature_is_professional_witness :
  mapFeatureToPlan (F := webappFeatures) "Playbooks Retrospective" true =
    ("Professional plan", true) /\
  mapFeatureToPlan (F := webappFeatures) "Playbooks Retrospective" false =
    ("Professional plan", false).
Proof.
  assert (Hout : ~ inLookupTable (F := webappFeatures) "Playbooks Retrospective").
  { unfold inLookupTable. simpl. intros [H|[H|[H|H]]]; discriminate H. }
  split.
  - exact (proj1 (unknown_feature_is_professional (F := webappFeatures)
                    "Playbooks Retrospective" true Hout)).
  - exact (proj1 (unknown_feature_is_professional (F := webappFeatures)
                    "Playbooks Retrospective" false Hout)).
Defined.

(** ** Further properties of the renderer *)

(** X8. The replacement of the pattern "comma, then no comma up to the
    end" drops exactly the last comma of the string: a string without a
    comma is returned as it is; otherwise the string splits at a comma
    into a front and a comma-free rest, the result is front and rest, one
    character shorter. *)
Theorem replace_last_comma_spec (s : string) :
  (has_comma s = false -> replace_last_comma s = s) /\
  (has_comma s = true ->
   exists front rest,
     s = front +:+ String "," rest /\
     has_comma rest = false /\
     replace_last_comma s = front +:+ rest /\
     S (String.length (replace_last_comma s)) = String.length s).
Proof.
  induction s as [|c r [IHno IHyes]]; [split; [reflexivity|discriminate]|].
  cbn [has_comma replace_last_comma].
  destruct (Ascii.eqb_spec c ",") as [->|Hc]; cbn [orb andb].
  - split; [discriminate|]. intros _.
    destruct (has_comma r) eqn:Hr; cbn [negb].
    + destruct (IHyes eq_refl) as (front & rest & -> & Hrest & Hrep & Hlen).
      exists (String "," front), rest.
      repeat split; try assumption.
      * cbn. now rewrite Hrep.
      * cbn [String.length]. now rewrite Hlen.
    + exists "", r. repeat split. exact Hr.
  - split.
    + intros Hr. now rewrite (IHno Hr).
    + intros Hr.
      destruct (IHyes Hr) as (front & rest & -> & Hrest & Hrep & Hlen).
      exists (String c front), rest.
      repeat split; try assumption.
      * cbn. now rewrite Hrep.
      * cbn [String.length]. now rewrite Hlen.
Qed.

Lemma replace_last_comma_spec_witness :
  replace_last_comma "@a, @b, and @c" = "@a, @b and @c" /\
  replace_last_comma "@a" = "@a".
Proof.
  split; [reflexivity|].
  exact (proj1 (replace_last_comma_spec "@a") eq_refl).
Defined.

Lemma replaceAll_no_space (s : string) :
  has_space (replaceAll_space_dash s) = false /\
  String.length (replaceAll_space_dash s) = String.length s.
Proof.
  induction s as [|c r [IHs IHl]]; [split; reflexivity|].
  cbn [replaceAll_space_dash has_space String.length].
  rewrite IHs, IHl. split; [|reflexivity].
  destruct (Ascii.eqb_spec c " ") as [->|Hc]; [reflexivity|].
  rewrite orb_false_r. now apply Ascii.eqb_neq.
Qed.

Section Messages.

Context {F : NonAdminPaidFeatures}.
Variable userProfiles : gmap string UserProfile.

(** The message of one feature does not depend on the flag. *)
Lemma featureMessage_flag (featureName : string)
    (requests : list FeatureRequest) (flag : bool) :
  fst (featureMessage userProfiles featureName requests flag) =
  fst (featureMessage userProfiles featureName requests true).
Proof.
  unfold featureMessage, mapFeatureToPlan.
  destruct (String.eqb featureName GUEST_ACCOUNTS
            || String.eqb featureName CREATE_MULTIPLE_TEAMS); [reflexivity|].
  destruct (String.eqb featureName ALL_ENTERPRISE_FEATURES
            || String.eqb featureName CUSTOM_USER_GROUPS); reflexivity.
Qed.

Lemma renderFeatures_body_fold (requestFeatures : RequestedFeature)
    (body : list FeatureMessage) (flag : bool) :
  fst (fold_left
         (fun '(customMessageBody, allProfessional) '(featureName, requests) =>
            let '(msg, allProfessional) :=
              featureMessage userProfiles featureName requests allProfessional in
            (customMessageBody ++ [msg], allProfessional))
         requestFeatures (body, flag)) =
  body ++ map (fun entry =>
                 fst (featureMessage userProfiles (fst entry) (snd entry) true))
              requestFeatures.
Proof.
  revert body flag.
  induction requestFeatures as [|[featureName requests] rest IH];
    intros body flag; simpl.
  - now rewrite app_nil_r.
  - pose proof (featureMessage_flag featureName requests flag) as Hmsg.
    destruct (featureMessage userProfiles featureName requests flag)
      as [msg flag'].
    simpl in Hmsg. rewrite IH, <- app_assoc, Hmsg. reflexivity.
Qed.

Lemma body_map (post : Post) :
  customMessageBody (OpenPricingModalPost userProfiles post) =
  map (fun entry =>
         fst (featureMessage userProfiles (fst entry) (snd entry) true))
      (match requested_features (props post) with
       | Some requestFeatures => requestFeatures
       | None => []
       end).
Proof.
  unfold OpenPricingModalPost.
  destruct (requested_features (props post)) as [requestFeatures|];
    [|reflexivity].
  pose proof (renderFeatures_body_fold requestFeatures [] true) as Hbody.
  fold (renderFeatures userProfiles requestFeatures) in Hbody.
  destruct (renderFeatures userProfiles requestFeatures) as [body flag].
  simpl in Hbody. cbn [customMessageBody]. now rewrite Hbody.
Qed.

Lemma featureMessage_ids (featureName : string)
    (requests : list FeatureRequest) (flag : bool) :
  let msg := fst (featureMessage userProfiles featureName requests flag) in
  title_name msg = featureName /\
  title_id msg = replaceAll_space_dash (featureName +:+ "-title") /\
  subtitle_id msg = replaceAll_space_dash (featureName +:+ "-subtitle") /\
  subtitle_message msg =
    renderUsersThatRequestedFeature userProfiles requests
      +:+ " requested access to this feature" /\
  subtitle_userIds msg = map user_id requests.
Proof.
  unfold featureMessage. rewrite getUserIds_map.
  destruct (mapFeatureToPlan featureName flag). repeat split.
Qed.

(** X9. The message body has one message per requested feature, in the
    order of the keys, and each message is computed from its own entry
    only: the title names the feature and its plan, the subtitle shows the
    requesters, and the user ids handed on are those of the entry's
    requests, one per request in order (also when the display collapses
    to a count). A post without requested features has an empty body. *)
Theorem message_body_per_feature (post : Post) :
  customMessageBody (OpenPricingModalPost userProfiles post) =
  map (fun entry =>
         mkFeatureMessage
           (replaceAll_space_dash (fst entry +:+ "-title"))
           (fst entry)
           (" - available on the " +:+ fst (mapFeatureToPlan (fst entry) true))
           (replaceAll_space_dash (fst entry +:+ "-subtitle"))
           (renderUsersThatRequestedFeature userProfiles (snd entry)
              +:+ " requested access to this feature")
           (map user_id (snd entry)))
      (match requested_features (props post) with
       | Some requestFeatures => requestFeatures
       | None => []
       end).
Proof.
  rewrite body_map.
  apply map_ext. intros [featureName requests]. cbn [fst snd].
  unfold featureMessage. rewrite getUserIds_map.
  now destruct (mapFeatureToPlan featureName true).
Qed.

(** X10. The element ids of every message of the body hold no space, so
    a feature name with spaces still gives ids usable in a selector: each
    space of the name has become a dash and nothing else has changed in
    length. *)
Theorem message_ids_without_spaces (post : Post) (msg : FeatureMessage) :
  In msg (customMessageBody (OpenPricingModalPost userProfiles post)) ->
  has_space (title_id msg) = false /\
  has_space (subtitle_id msg) = false /\
  String.length (title_id msg) = String.length (title_name msg +:+ "-title") /\
  String.length (subtitle_id msg) =
    String.length (title_name msg +:+ "-subtitle").
Proof.
  rewrite body_map. intros Hin.
  apply in_map_iff in Hin as ([featureName requests] & <- & _).
  cbn [fst snd].
  destruct (featureMessage_ids featureName requests true)
    as (-> & -> & -> & _).
  repeat split; apply replaceAll_no_space.
Qed.

(** X11. A feature whose list of requests is empty is still rendered, and
    its subtitle names no one: the conjunction is followed by
    [undefined]. *)
Theorem empty_requests_display (post : Post) (featureName : string)
    (requestFeatures : RequestedFeature) :
  requested_features (props post) = Some requestFeatures ->
  In (featureName, []) requestFeatures ->
  renderUsersThatRequestedFeature userProfiles [] = "and undefined" /\
  exists msg,
    In msg (customMessageBody (OpenPricingModalPost userProfiles post)) /\
    title_name msg = featureName /\
    subtitle_message msg = "and undefined requested access to this feature" /\
    subtitle_userIds msg = [].
Proof.
  intros Hprops Hin. split; [reflexivity|].
  rewrite body_map, Hprops.
  exists (fst (featureMessage userProfiles featureName [] true)). split.
  - apply in_map_iff. exists (featureName, []). split; [reflexivity|exact Hin].
  - destruct (featureMessage_ids featureName [] true)
      as (-> & _ & _ & -> & ->).
    repeat split.
Qed.

(** X12. Which buttons are shown depends on the trial flag and on the set
    of requested feature names only: not on the order of the features, on
    how often a name occurs, on who requested them or on the user
    profiles. *)
Theorem buttons_depend_on_names_only
    (userProfiles' : gmap string UserProfile) (post post' : Post) :
  truthy (props_trial (props post)) = truthy (props_trial (props post')) ->
  (forall feature,
     In feature (featureNames post) <-> In feature (featureNames post')) ->
  buttons (OpenPricingModalPost userProfiles post) =
  buttons (OpenPricingModalPost userProfiles' post').
Proof.
  intros Htrial Hnames. rewrite !buttons_shown. unfold renderButtons.
  rewrite Htrial.
  destruct (truthy (props_trial (props post'))); [reflexivity|].
  assert (Hflag : forall names names',
    (forall f : string, In f names -> In f names') ->
    forallb (fun f => negb (needsEnterprise f)) names' = true ->
    forallb (fun f => negb (needsEnterprise f)) names = true).
  { intros names names' Hsub Hall. apply forallb_forall. intros f Hf.
    rewrite forallb_forall in Hall. apply Hall, Hsub, Hf. }
  destruct (forallb _ (featureNames post)) eqn:H1;
    destruct (forallb _ (featureNames post')) eqn:H2; try reflexivity.
  - rewrite (Hflag _ _ (fun f => proj2 (Hnames f)) H1) in H2. discriminate.
  - rewrite (Hflag _ _ (fun f => proj1 (Hnames f)) H2) in H1. discriminate.
Qed.

(** X13. The lookup table as the switch reads it, the first matching
    case winning: the two professional names get the Professional plan
    and leave the flag; the two enterprise names, when they are not also
    professional names, get the Enterprise plan and clear the flag. For
    every name the answer is one of the two plans, and a flag that is
    cleared is never set again. *)
Theorem lookup_table_entries (feature : string) (flag : bool) :
  (feature = GUEST_ACCOUNTS \/ feature = CREATE_MULTIPLE_TEAMS ->
   mapFeatureToPlan feature flag = (MinimumPlansForFeature.Professional, flag)) /\
  (feature = ALL_ENTERPRISE_FEATURES \/ feature = CUSTOM_USER_GROUPS ->
   feature <> GUEST_ACCOUNTS -> feature <> CREATE_MULTIPLE_TEAMS ->
   mapFeatureToPlan feature flag = (MinimumPlansForFeature.Enterprise, false)) /\
  (fst (mapFeatureToPlan feature flag) = MinimumPlansForFeature.Professional \/
   fst (mapFeatureToPlan feature flag) = MinimumPlansForFeature.Enterprise) /\
  (snd (mapFeatureToPlan feature flag) = true -> flag = true).
Proof.
  unfold mapFeatureToPlan.
  destruct (String.eqb_spec feature GUEST_ACCOUNTS) as [Hg|Hg];
    destruct (String.eqb_spec feature CREATE_MULTIPLE_TEAMS) as [Hc|Hc];
    cbn [orb];
    try (repeat split; auto; intros; congruence).
  destruct (String.eqb_spec feature ALL_ENTERPRISE_FEATURES) as [Ha|Ha];
    destruct (String.eqb_spec feature CUSTOM_USER_GROUPS) as [Hu|Hu];
    cbn [orb fst snd];
    repeat split; auto; try tauto; try discriminate; intros; congruence.
Qed.

End Messages.

Lemma message_ids_without_spaces_witness :
  let request :=
    mkFeatureRequest "r" "u1" "Custom User groups" "Enterprise plan" "1" "false" in
  let post := mkPost "post" "Features were requested"
    (mkCustomPostProps (Some [("Custom User groups", [request])]) None) in
  exists msg,
    customMessageBody (OpenPricingModalPost (F := webappFeatures) ∅ post) = [msg] /\
    title_id msg = "Custom-User-groups-title" /\
    has_space (title_id msg) = false.
Proof.
  intros request post. eexists. split; [vm_compute; reflexivity|].
  split; [reflexivity|].
  refine (proj1 (message_ids_without_spaces (F := webappFeatures) ∅ post _ _)).
  vm_compute. left. reflexivity.
Defined.

Lemma empty_requests_display_witness :
  let post := mkPost "post" "Features were requested"
    (mkCustomPostProps (Some [("Guest Accounts", [])]) None) in
  exists msg,
    In msg (customMessageBody (OpenPricingModalPost (F := webappFeatures) ∅ post)) /\
    title_name msg = "Guest Accounts" /\
    subtitle_message msg = "and undefined requested access to this feature" /\
    subtitle_userIds msg = [].
Proof.
  intros post.
  exact (proj2 (empty_requests_display (F := webappFeatures) ∅ post
                  "Guest Accounts" [("Guest Accounts", [])] eq_refl
                  (or_introl eq_refl))).
Defined.

Lemma buttons_depend_on_names_only_witness :
  let request u :=
    mkFeatureRequest "r" u "Guest Accounts" "Professional plan" "1" "false" in
  let post := mkPost "post" "one"
    (mkCustomPostProps
       (Some [("Guest Accounts", [request "u1"]);
              ("Custom User groups", [request "u2"])]) None) in
  let post' := mkPost "post" "two"
    (mkCustomPostProps
       (Some [("Custom User groups", []);
              ("Guest Accounts", [request "u3"; request "u1"]);
              ("Custom User groups", [request "u1"])]) (Some false)) in
  buttons (OpenPricingModalPost (F := webappFeatures) ∅ post) =
  buttons (OpenPricingModalPost (F := webappFeatures)
             (<["u1" := mkUserProfile "alice"]> ∅) post').
Proof.
  intros request post post'.
  apply (buttons_depend_on_names_only (F := webappFeatures)); [reflexivity|].
  intros feature. simpl. tauto.
Defined.

Lemma lookup_table_entries_witness :
  mapFeatureToPlan (F := webappFeatures) "Guest Accounts" false =
    ("Professional plan", false) /\
  mapFeatureToPlan (F := webappFeatures) "All Enterprise features" true =
    ("Enterprise plan", false).
Proof.
  split.
  - exact (proj1 (lookup_table_entries (F := webappFeatures)
                    "Guest Accounts" false) (or_introl eq_refl)).
  - refine (proj1 (proj2 (lookup_table_entries (F := webappFeatures)
                            "All Enterprise features" true))
                  (or_introl eq_refl) _ _); discriminate.
Defined.

End PricingPostFacts.

(** * Properties of the rectangle skeleton loader *)

Module SkeletonFacts.

Import Skeleton.

Section Loader.

Variable number : Type.
Variable number_of_Z : Z -> number.
Variable number_to_string : number -> string.

(** C10. The rendered border radius is the given [borderRadius] in pixels
    when one is supplied and 8 pixels when it is omitted; height and width
    are the supplied props in pixels. *)
Theorem rectangle_loader_style (props : RectangleSkeletonLoaderProps number) :
  let css := RectangleSkeletonLoader number number_of_Z number_to_string props in
  declared "height" css =
    Some (number_to_string (height number props) +:+ "px") /\
  declared "width" css =
    Some (number_to_string (width number props) +:+ "px") /\
  (forall r, borderRadius number props = Some r ->
     declared "border-radius" css =
       Some (number_to_string r +:+ "px")) /\
  (borderRadius number props = None ->
     declared "border-radius" css =
       Some (number_to_string (number_of_Z 8) +:+ "px")).
Proof.
  intros css. subst css.
  split; [reflexivity|]. split; [reflexivity|].
  split; [intros r Hr|intros Hr];
    unfold RectangleSkeletonLoader; rewrite Hr; reflexivity.
Qed.

End Loader.

Lemma rectangle_loader_style_witness :
  let loader := RectangleSkeletonLoader Z (fun z => z) string_of_Z in
  declared "border-radius" (loader (mkRectangleProps Z 20%Z 200%Z (Some 0%Z)))
    = Some "0px" /\
  declared "border-radius" (loader (mkRectangleProps Z 20%Z 200%Z None))
    = Some "8px" /\
  declared "height" (loader (mkRectangleProps Z 20%Z 200%Z None)) = Some "20px" /\
  declared "width" (loader (mkRectangleProps Z 20%Z 200%Z None)) = Some "200px".
Proof.
  intros loader.
  pose proof (rectangle_loader_style Z (fun z => z) string_of_Z
                (mkRectangleProps Z 20%Z 200%Z (Some 0%Z))) as (_ & _ & Hsome & _).
  pose proof (rectangle_loader_style Z (fun z => z) string_of_Z
                (mkRectangleProps Z 20%Z 200%Z None)) as (Hh & Hw & _ & Hnone).
  split; [exact (Hsome 0%Z eq_refl)|].
  split; [exact (Hnone eq_refl)|].
  split; [exact Hh|exact Hw].
Defined.

Lemma declared_app (prop : string) (base extra : list (string * string)) :
  declared prop (base ++ extra) =
  match declared prop extra with
  | Some value => Some value
  | None => declared prop base
  end.
Proof.
  induction base as [|[name value] base IH]; simpl.
  - now destruct (declared prop extra).
  - rewrite IH. now destruct (declared prop extra).
Qed.

Section Base.

Variable number : Type.
Variable number_of_Z : Z -> number.
Variable number_to_string : number -> string.

(** X14. Neither loader overrides a declaration of [BaseLoader]: whatever
    the props, the animation and the background colour of the base rule
    are those of the rendered rule. The circle loader is as high as it is
    wide, with a radius of 50%. *)
Theorem loaders_keep_base_style
    (rectangle : RectangleSkeletonLoaderProps number)
    (circle : CircleSkeletonLoaderProps number) (prop value : string) :
  declared prop BaseLoader = Some value ->
  declared prop
    (RectangleSkeletonLoader number number_of_Z number_to_string rectangle)
    = Some value /\
  declared prop (CircleSkeletonLoader number number_to_string circle)
    = Some value /\
  declared "height" (CircleSkeletonLoader number number_to_string circle) =
    declared "width" (CircleSkeletonLoader number number_to_string circle) /\
  declared "height" (CircleSkeletonLoader number number_to_string circle) =
    Some (number_to_string (size number circle) +:+ "px") /\
  declared "border-radius" (CircleSkeletonLoader number number_to_string circle)
    = Some "50%".
Proof.
  intros Hbase.
  unfold RectangleSkeletonLoader, CircleSkeletonLoader.
  rewrite !declared_app, Hbase.
  repeat split.
  - cbn [declared].
    destruct (String.eqb_spec "border-radius" prop) as [<-|_];
      [discriminate Hbase|].
    destruct (String.eqb_spec "width" prop) as [<-|_];
      [discriminate Hbase|].
    destruct (String.eqb_spec "height" prop) as [<-|_];
      [discriminate Hbase|reflexivity].
  - cbn [declared].
    destruct (String.eqb_spec "width" prop) as [<-|_];
      [discriminate Hbase|].
    destruct (String.eqb_spec "height" prop) as [<-|_];
      [discriminate Hbase|].
    destruct (String.eqb_spec "border-radius" prop) as [<-|_];
      [discriminate Hbase|].
    destruct (String.eqb_spec "display" prop) as [<-|_];
      [discriminate Hbase|reflexivity].
Qed.

End Base.

Lemma loaders_keep_base_style_witness :
  declared "animation-duration"
    (RectangleSkeletonLoader Z (fun z => z) string_of_Z
       (mkRectangleProps Z 20%Z 200%Z None)) = Some "1500ms" /\
  declared "animation-duration"
    (CircleSkeletonLoader Z string_of_Z (mkCircleProps Z 32%Z)) = Some "1500ms" /\
  declared "width" (CircleSkeletonLoader Z string_of_Z (mkCircleProps Z 32%Z))
    = Some "32px".
Proof.
  pose proof (loaders_keep_base_style Z (fun z => z) string_of_Z
                (mkRectangleProps Z 20%Z 200%Z None) (mkCircleProps Z 32%Z)
                "animation-duration" "1500ms" eq_refl)
    as (Hrect & Hcircle & Hsame & Hheight & _).
  split; [exact Hrect|]. split; [exact Hcircle|].
  rewrite <- Hsame. exact Hheight.
Defined.

End SkeletonFacts.
